(** * Monado binding generators: oxr_bindings.py and ovrd_bindings.py

    A shallow embedding of the two code generators
    [src/xrt/state_trackers/oxr/oxr_bindings/oxr_bindings.py] and
    [src/xrt/state_trackers/steamvr_drv/steamvr_bindings/ovrd_bindings.py],
    of the C text they emit, and of what that C text computes. *)

From Stdlib Require Import ZArith Lia.
From stdpp Require Import base list strings gmap sorting pretty.

(** ** Python helpers *)

Module Py.

(** The characters the generators write with escapes: tab, newline and
    the double quote. *)
Definition tab : string := String (Ascii.ascii_of_nat 9) EmptyString.
Definition nl : string := String (Ascii.ascii_of_nat 10) EmptyString.
Definition dq : string := String (Ascii.ascii_of_nat 34) EmptyString.

(** [sep.join(l)] *)
Fixpoint join (sep : string) (l : list string) : string :=
  match l with
  | [] => EmptyString
  | [x] => x
  | x :: l' => x +:+ sep +:+ join sep l'
  end.

(** [''.join(l)], the text of a sequence of writes *)
Definition cat (l : list string) : string := foldr String.app EmptyString l.

(** [enumerate(l)] *)
Definition enumerate {A} (l : list A) : list (nat * A) := imap (fun i x => (i, x)) l.

(** [sorted(l)] and [sorted(l, key=...)]: a stable sort. An element goes in
    front of the first one it is not greater than, and the list is
    built from its right end, so equal keys keep their order. *)
Section sorted.
Context {A : Type} (R : relation A) `{!RelDecision R}.

Fixpoint insert_sorted (x : A) (l : list A) : list A :=
  match l with
  | [] => [x]
  | y :: l' => if decide (R x y) then x :: l else y :: insert_sorted x l'
  end.

Definition sorted (l : list A) : list A := foldr insert_sorted [] l.
End sorted.

(** [s.split("/")]: never an empty list. *)
Fixpoint split_slash_go (cur : string) (s : string) : list string :=
  match s with
  | EmptyString => [String.rev cur]
  | String c s' =>
      if Ascii.eqb c (Ascii.ascii_of_nat 47) then String.rev cur :: split_slash_go EmptyString s'
      else split_slash_go (String c cur) s'
  end.
Definition split_slash (s : string) : list string := split_slash_go EmptyString s.

(** [l[-1]] and [l[-2]]; IndexError is [None]. *)
Definition index_m1 {A} (l : list A) : option A := last l.
Definition index_m2 {A} (l : list A) : option A :=
  match reverse l with
  | _ :: x :: _ => Some x
  | _ => None
  end.

(** [str(x)] of an optional string: the absent value prints as None. *)
Definition str_opt (o : option string) : string := default "None" o.

(** [n] tabs *)
Definition tabs (n : nat) : string := cat (replicate n tab).

End Py.

Import Py.

(** The order of [sorted] on integers and on strings. *)
Definition nat_le : relation nat := le.
Definition str_le : relation string := String.le.

(** ** The loaded bindings (the data model of bindings.py) *)

(** A version dictionary with the keys "major" and "minor". *)
Record Version := mkVersion { major : N; minor : N }.

(** FeatureSet: the optional minimum version and the required extensions,
    the latter in the order in which the frozenset iterates. *)
Record FeatureSet := mkFeatureSet {
  required_extensions : list string;
  required_version : option Version;
}.

(** Availability: the feature sets, in the order in which the set iterates. *)
Record Availability := mkAvailability { feature_sets : list FeatureSet }.

Record Component := mkComponent {
  component_name : string;
  subaction_path : string;
  steamvr_path : string;
  subpath_localized_name : string;
  monado_binding : option string;
  dpad_emulation : option (gmap string string);
  identifier_json_path : string;
  (** the result of [get_full_openxr_paths()] *)
  get_full_openxr_paths : list string;
  is_input : bool;
  is_output : bool;
}.

Record DpadEmulation := mkDpadEmulation {
  dpad_paths : list string;
  position_component : Component;
  activate_component : option Component;
}.

Record Identifier := mkIdentifier {
  identifier_subaction_path : string;
  dpad : option DpadEmulation;
}.

(** Profiles refer to their parents by reference; a parent reached along two
    paths is read twice, which the tree of references shows as is. *)
#[warnings="-register-all"] Inductive Profile := mkProfile {
  name : string;
  localized_name : string;
  validation_func_name : string;
  monado_device_enum : string;
  parent_profiles : option (list Profile);
  extension_name : option string;
  openxr_version_promoted : option Version;
  (** the result of [availability()] *)
  availability : Availability;
  components : list Component;
  identifiers : list Identifier;
  subpaths_by_length : gmap nat (list string);
  dpad_paths_by_length : gmap nat (list string);
  dpad_emulators_by_length : gmap nat (list string);
}.

Record Bindings := mkBindings { profiles : list Profile }.

(** The three dictionaries [getattr(profile, dict_name)] is called with. *)
Inductive dict_name := DSubpaths | DDpadPaths | DDpadEmulators.

Definition getattr (profile : Profile) (d : dict_name) : gmap nat (list string) :=
  match d with
  | DSubpaths => subpaths_by_length profile
  | DDpadPaths => dpad_paths_by_length profile
  | DDpadEmulators => dpad_emulators_by_length profile
  end.

(** Truth value of [component.monado_binding]: absent and empty are false. *)
Definition truthy (o : option string) : bool :=
  match o with
  | Some s => negb (String.eqb s EmptyString)
  | None => false
  end.

(** ** Lines of the generators

    The lines [get_verify_switch_body] writes for one entry of a bucket
    (oxr_bindings.py, lines 24 to 29) and the guard lines of
    [get_verify_func_switch] and [get_verify_functions] (lines 66, 73 to 77
    and 135), as the generators write them. *)

Definition strcmp_lines (tab_char : string) (i : nat) (path : string) : list string :=
  let if_or_else_if := if Nat.eqb i 0 then "if" else "} else if" in
  [ tab_char +:+ tab +:+ tab +:+ if_or_else_if +:+ " (strcmp(str, " +:+ dq +:+ path +:+ dq +:+ ") == 0) {";
    tab_char +:+ tab +:+ tab +:+ tab +:+ "return true;" ].

Definition version_guard_line (tab_char : string) (v : Version) : string :=
  tab_char +:+ "if (openxr_version >= XR_MAKE_VERSION(" +:+ pretty (major v)
    +:+ ", " +:+ pretty (minor v) +:+ ", 0)) {".

Definition ext_defines_of (exts : list string) : string :=
  join " && " (map (fun ext => "defined(OXR_HAVE_" +:+ ext +:+ ")") exts).

Definition ext_guard_line (tab_char : string) (exts : list string) : string :=
  tab_char +:+ "if (" +:+ join " && " (map (fun ext => "exts->" +:+ ext) exts) +:+ ") {".


(** ** The emitted C, read as a program

    A matcher is a sequence of alternative blocks, each a switch on the
    claimed length under at most a version guard and a guard on
    extensions, the latter inside a preprocessor conditional. [cstmt] is the
    text before preprocessing, [stmt] the statements a build compiles. The
    strings of a switch are string literals, as they are written between
    their quotes: what they denote is read by [literal_value]. The names
    of extensions and of functions are taken for the identifiers they are
    in the binding data, and the name of a profile for one that ends with
    the line of its comment. *)



(** *** The text of a program

    The printer writes C in words of its own, and shares none with the
    generators: a line of a generator is the text of a statement only when
    it is written as the statement is. *)

Definition print_version_test (v : Version) : string :=
  "openxr_version >= XR_MAKE_VERSION(" +:+ pretty (major v) +:+ ", "
    +:+ pretty (minor v) +:+ ", 0)".

Definition print_strcmp_test (literal : string) : string :=
  "strcmp(str, " +:+ dq +:+ literal +:+ dq +:+ ") == 0".



(** The rest of a chain of comparisons: the alternatives and the brace
    that closes the last of them. *)
Fixpoint print_else_ifs (indent : string) (literals : list string) : list string :=
  match literals with
  | [] => [ indent +:+ "}" ]
  | literal :: literals' =>
      [ indent +:+ "} else if (" +:+ print_strcmp_test literal +:+ ") {";
        indent +:+ tab +:+ "return true;" ] ++
      print_else_ifs indent literals'
  end.

(** The chain of comparisons of one case. A chain without a comparison is
    no statement of C: all there is of it is a brace that closes nothing,
    and [stmt_ok] refuses a switch that has one. *)
Definition print_chain (indent : string) (literals : list string) : list string :=
  match literals with
  | [] => [ indent +:+ "}" ]
  | literal :: literals' =>
      [ indent +:+ "if (" +:+ print_strcmp_test literal +:+ ") {";
        indent +:+ tab +:+ "return true;" ] ++
      print_else_ifs indent literals'
  end.

(** The text of a statement, indented by [tab_char]; a guard adds one tab. *)
Definition print_case (tab_char : string) (c : nat * list string) : list string :=
  [ tab_char +:+ tab +:+ "case " +:+ pretty (fst c) +:+ ":" ] ++
  print_chain (tab_char +:+ tab +:+ tab) (snd c) ++
  [ tab_char +:+ tab +:+ tab +:+ "break;" ].

Definition print_switch (tab_char : string) (cases : list (nat * list string))
    : list string :=
  [ tab_char +:+ tab +:+ "switch (length) {" ] ++
  flat_map (print_case tab_char) cases ++
  [ tab_char +:+ tab +:+ "default: break;";
    tab_char +:+ tab +:+ "}" ].



(** *** What a compiler makes of the text *)











(** XR_MAKE_VERSION of the OpenXR headers, on 64 bits. *)
Definition XR_MAKE_VERSION (major minor patch : Z) : Z :=
  Z.lor (Z.lor (Z.shiftl (Z.land major 65535) 48) (Z.shiftl (Z.land minor 65535) 32))
        (Z.land patch 4294967295).

(** What a call receives: the negotiated version, the extension status
    (the extensions whose field is true), the string [str] points to (its
    characters before the null character that ends it, none of which is
    the null character), and the claimed length. *)
Record call := mkCall {
  openxr_version : Z;
  exts_status : gset string;
  str : string;
  length_arg : nat;
}.

Definition version_holds (c : call) (v : Version) : bool :=
  (XR_MAKE_VERSION (Z.of_N (major v)) (Z.of_N (minor v)) 0 <=? openxr_version c)%Z.

(** The result of running statements: whether [return true] was reached, and
    the strings handed to strcmp on the way, in order. *)
Definition outcome : Type := bool * list string.



Definition run_seq {A} (f : A -> outcome) : list A -> outcome :=
  fix go l :=
    match l with
    | [] => (false, [])
    | x :: l' =>
        let '(r, t) := f x in
        if r then (true, t) else let '(r', t') := go l' in (r', t ++ t')
    end.





(** The _ext function: assignments to the two out parameters under a
    version test and an #ifdef with both branches. [cxstmt] is the text,
    [xstmt] what a build compiles. *)

Inductive outvar := OutSupported | OutEnabled.
Inductive xexpr := XConst (b : bool) | XExtField (ext : string).

#[warnings="-register-all"] Inductive cxstmt :=
| XIfVersion (v : Version) (body : list cxstmt)
| XIfdefElse (ext : string) (then_ else_ : list cxstmt)
| XAssign (o : outvar) (e : xexpr)
| XReturn.

#[warnings="-register-all"] Inductive xstmt :=
| YIfVersion (v : Version) (body : list xstmt)
| YAssign (o : outvar) (e : xexpr)
| YReturn.

Definition print_outvar (o : outvar) : string :=
  match o with OutSupported => "*out_supported" | OutEnabled => "*out_enabled" end.
Definition print_xexpr (e : xexpr) : string :=
  match e with
  | XConst true => "true"
  | XConst false => "false"
  | XExtField ext => "extensions->" +:+ ext
  end.

Fixpoint print_cxstmt (indent : string) (s : cxstmt) : list string :=
  match s with
  | XIfVersion v body =>
      [ indent +:+ "if (" +:+ print_version_test v +:+ ") {" ] ++
      flat_map (print_cxstmt (indent +:+ tab)) body ++
      [ indent +:+ "}"; "" ]
  | XIfdefElse ext then_ else_ =>
      [ "#ifdef OXR_HAVE_" +:+ ext ] ++ flat_map (print_cxstmt indent) then_ ++
      [ "#else" ] ++ flat_map (print_cxstmt indent) else_ ++
      [ "#endif // OXR_HAVE_" +:+ ext ]
  | XAssign o e => [ indent +:+ print_outvar o +:+ " = " +:+ print_xexpr e +:+ ";" ]
  | XReturn => [ indent +:+ "return;" ]
  end.

Definition print_ext_func (fname : string) (body : list cxstmt) : list string :=
  [ "void";
    fname +:+ "(const struct oxr_extension_status *extensions, XrVersion openxr_version, bool *out_supported, bool *out_enabled)";
    "{";
    "" ] ++
  flat_map (print_cxstmt tab) body ++
  [ "}"; "" ].

Fixpoint preprocess_x (build : gset string) (s : cxstmt) : list xstmt :=
  match s with
  | XIfVersion v body => [ YIfVersion v (flat_map (preprocess_x build) body) ]
  | XIfdefElse ext then_ else_ =>
      if bool_decide (ext ∈ build) then flat_map (preprocess_x build) then_
      else flat_map (preprocess_x build) else_
  | XAssign o e => [ YAssign o e ]
  | XReturn => [ YReturn ]
  end.

(** The two out parameters, and the state of a run of the _ext function:
    the parameters, whether [return] was reached, and the fields of
    [extensions] read so far. *)
Record outs := mkOuts { out_supported : bool; out_enabled : bool }.
Record xstate := mkXState { xs_outs : outs; xs_returned : bool; xs_reads : list string }.

Definition eval_xexpr (c : call) (e : xexpr) : bool :=
  match e with
  | XConst b => b
  | XExtField ext => bool_decide (ext ∈ exts_status c)
  end.
Definition xexpr_reads (e : xexpr) : list string :=
  match e with XConst _ => [] | XExtField ext => [ext] end.
Definition assign (o : outvar) (b : bool) (m : outs) : outs :=
  match o with
  | OutSupported => mkOuts b (out_enabled m)
  | OutEnabled => mkOuts (out_supported m) b
  end.

Definition xrun_seq {A} (f : A -> xstate -> xstate) : list A -> xstate -> xstate :=
  fix go l st :=
    match l with
    | [] => st
    | x :: l' => let st' := f x st in if xs_returned st' then st' else go l' st'
    end.

Fixpoint xrun_stmt (c : call) (s : xstmt) (st : xstate) : xstate :=
  match s with
  | YIfVersion v body => if version_holds c v then xrun_seq (xrun_stmt c) body st else st
  | YAssign o e =>
      mkXState (assign o (eval_xexpr c e) (xs_outs st)) false (xs_reads st ++ xexpr_reads e)
  | YReturn => mkXState (xs_outs st) true (xs_reads st)
  end.

Definition run_ext_func (build : gset string) (c : call) (body : list cxstmt)
    (init : outs) : xstate :=
  xrun_seq (xrun_stmt c) (flat_map (preprocess_x build) body) (mkXState init false []).

(** ** Writing the output file

    A run of a generator: the text written to the file so far, and either a
    value or the exception that stopped the run. *)

Inductive exn := AttributeError | TypeError | IndexError.
Inductive result (A : Type) := Ok (x : A) | Raise (e : exn).
Arguments Ok {A} x.
Arguments Raise {A} e.

Definition gen (A : Type) : Type := string -> string * result A.

Definition ret {A} (x : A) : gen A := fun f => (f, Ok x).
Definition raise {A} (e : exn) : gen A := fun f => (f, Raise e).
Definition bind {A B} (m : gen A) (k : A -> gen B) : gen B :=
  fun f => match m f with
           | (f', Ok x) => k x f'
           | (f', Raise e) => (f', Raise e)
           end.

#[global] Instance gen_ret : MRet gen := @ret.
#[global] Instance gen_bind : MBind gen := fun A B k m => bind m k.

(** [f.write(s)] *)
Definition write (s : string) : gen unit := fun f => (f +:+ s, Ok tt).

(** Modelled from the spec: [wl] of bindings.py, which src/ does not hold.
    The generators write their output line by line: [wl(f, a, b, ...)] writes
    its arguments joined by newlines, and a newline after the last. *)
Definition wl (lines : list string) : gen unit := write (join nl lines +:+ nl).

(** [for x in l: body(x)] and [for i, x in enumerate(l): body(i, x)] *)
Fixpoint for_each {A} (l : list A) (body : A -> gen unit) : gen unit :=
  match l with
  | [] => ret tt
  | x :: l' => body x;; for_each l' body
  end.

(** The value of an optional attribute the code dereferences. *)
Definition deref {A} (e : exn) (o : option A) : gen A :=
  match o with Some x => ret x | None => raise e end.

(** Modelled from the spec: [find_component_in_list_by_name] of bindings.py,
    which src/ does not hold. It searches the component list for a component
    whose name equals the given one and whose subaction path and
    identifier json path equal the given ones; the first such component is
    the result, and there is none if no component matches. *)
Definition component_matches (name_ subaction_path_ identifier_json_path_ : string)
    (c : Component) : bool :=
  String.eqb (component_name c) name_ &&
  String.eqb (subaction_path c) subaction_path_ &&
  String.eqb (identifier_json_path c) identifier_json_path_.

Definition find_component_in_list_by_name (name_ : string) (component_list : list Component)
    (subaction_path_ identifier_json_path_ : string) : option Component :=
  List.find (component_matches name_ subaction_path_ identifier_json_path_) component_list.

(** ** The output files and the scripts that write them

    The files are a map from the paths the script was given to the text
    each file holds. *)

(** What stops a script: the exception of a generator, the KeyError of
    [Template.substitute] for a placeholder that was given no value, or the
    OSError of [open] for a path that cannot be opened for writing (a
    directory that is missing, a path that is a directory, a permission
    that is not given). *)
Inductive failure := Generator (e : exn) | KeyError | OSError.

(** A part of a script: the files after it and, if an exception stopped
    it, the exception. *)
Definition script : Type := gmap string string → gmap string string * option failure.

Definition skip : script := fun fs => (fs, None).

(** One statement after another: an exception in the first ends both. *)
Definition and_then (p q : script) : script :=
  fun fs => match p fs with
            | (fs', None) => q fs'
            | (fs', Some e) => (fs', Some e)
            end.

(** [if test: body], without an else *)
Definition when (test : bool) (body : script) : script := if test then body else skip.

(** [for output in outputs: body(output)] *)
Fixpoint for_outputs (outputs : list string) (body : string → script) : script :=
  match outputs with
  | [] => skip
  | output :: outputs' => and_then (body output) (for_outputs outputs' body)
  end.

(** [s.endswith(suffix)]: [suffix] is what [s] holds from some position on. *)
Fixpoint endswith (s suffix : string) : bool :=
  String.eqb s suffix ||
  match s with
  | EmptyString => false
  | String _ s' => endswith s' suffix
  end.

(** ** string.Template

    A template is its text cut at the placeholders: the text between them
    and their names. [substitute] puts the value of each placeholder in its
    place, and has no result (a KeyError) when a placeholder has none. *)
Inductive segment := Lit (text : string) | Placeholder (name : string).

Fixpoint substitute (template : list segment) (mapping : gmap string string)
    : option string :=
  match template with
  | [] => Some EmptyString
  | Lit text :: template' =>
      rest ← substitute template' mapping; Some (text +:+ rest)
  | Placeholder name :: template' =>
      value ← mapping !! name;
      rest ← substitute template' mapping; Some (value +:+ rest)
  end.

(** H_TEMPLATE of oxr_bindings.py. Each text between two placeholders is
    given line by line, an empty line as the empty string. *)
Definition H_TEMPLATE : list segment :=
[ Placeholder "header";
  Lit (join nl
    [ EmptyString;
      EmptyString;
      "#pragma once";
      EmptyString;
      "#include <stddef.h>";
      "#include " +:+ dq +:+ "xrt/xrt_defines.h" +:+ dq;
      EmptyString;
      "#ifdef __cplusplus";
      "extern " +:+ dq +:+ "C" +:+ dq +:+ " {";
      "#endif";
      EmptyString;
      "typedef uint64_t XrPath; // OpenXR typedef'";
      "typedef uint64_t XrVersion; // OpenXR typedef'";
      EmptyString;
      "struct oxr_extension_status;";
      EmptyString;
      "#define OXR_BINDINGS_PROFILE_TEMPLATE_COUNT " ]);
  Placeholder "template_count";
  Lit (join nl
    [ EmptyString;
      EmptyString;
      "// clang-format off";
      EmptyString;
      EmptyString ]);
  Placeholder "verify_protos";
  Lit (join nl
    [ EmptyString;
      EmptyString;
      "#define PATHS_PER_BINDING_TEMPLATE 16";
      EmptyString;
      "enum oxr_dpad_binding_point";
      "{";
      tab +:+ "OXR_DPAD_BINDING_POINT_NONE,";
      tab +:+ "OXR_DPAD_BINDING_POINT_UP,";
      tab +:+ "OXR_DPAD_BINDING_POINT_DOWN,";
      tab +:+ "OXR_DPAD_BINDING_POINT_LEFT,";
      tab +:+ "OXR_DPAD_BINDING_POINT_RIGHT,";
      "};";
      EmptyString;
      "struct dpad_emulation";
      "{";
      tab +:+ "const char *subaction_path;";
      tab +:+ "const char *paths[PATHS_PER_BINDING_TEMPLATE];";
      tab +:+ "enum xrt_input_name position;";
      tab +:+ "enum xrt_input_name activate; // Can be zero";
      "};";
      EmptyString;
      "struct binding_template";
      "{";
      tab +:+ "const char *subaction_path;";
      tab +:+ "const char *steamvr_path;";
      tab +:+ "const char *localized_name;";
      tab +:+ "const char *paths[PATHS_PER_BINDING_TEMPLATE];";
      tab +:+ "enum xrt_input_name input;";
      tab +:+ "enum xrt_input_name dpad_activate;";
      tab +:+ "enum xrt_output_name output;";
      "};";
      EmptyString;
      "typedef bool (*path_verify_fn_t)(const struct oxr_extension_status *extensions, XrVersion openxr_version, const char *, size_t);";
      "typedef void (*ext_verify_fn_t)(const struct oxr_extension_status *extensions, XrVersion openxr_version, bool *out_supported, bool *out_enabled);";
      EmptyString;
      "struct profile_template";
      "{";
      tab +:+ "enum xrt_device_name name;";
      tab +:+ "const char *path;";
      tab +:+ "const char *localized_name;";
      tab +:+ "const char *steamvr_input_profile_path;";
      tab +:+ "const char *steamvr_controller_type;";
      tab +:+ "struct binding_template *bindings;";
      tab +:+ "size_t binding_count;";
      tab +:+ "struct dpad_emulation *dpads;";
      tab +:+ "size_t dpad_count;";
      tab +:+ "struct {";
      tab +:+ tab +:+ "struct {";
      tab +:+ tab +:+ tab +:+ "uint32_t major;";
      tab +:+ tab +:+ tab +:+ "uint32_t minor;";
      tab +:+ tab +:+ "} promoted;";
      tab +:+ "} openxr_version;";
      tab +:+ "//! path_cache is an INVALID value until oxr_instance_create initializes it.";
      tab +:+ "XrPath path_cache;";
      EmptyString;
      tab +:+ "path_verify_fn_t subpath_fn;";
      tab +:+ "path_verify_fn_t dpad_path_fn;";
      tab +:+ "path_verify_fn_t dpad_emulator_fn;";
      tab +:+ "ext_verify_fn_t ext_verify_fn;";
      tab +:+ "const char *extension_name;";
      "};";
      EmptyString;
      "extern struct profile_template profile_templates[OXR_BINDINGS_PROFILE_TEMPLATE_COUNT];";
      "// clang-format on" +:+ dq +:+ ")";
      "#ifdef __cplusplus";
      "}";
      "#endif";
      EmptyString ]) ].

(** H_TEMPLATE of ovrd_bindings.py, the reduced version of the one above *)
Definition ovrd_H_TEMPLATE : list segment :=
[ Placeholder "header";
  Lit (join nl
    [ EmptyString;
      EmptyString;
      "#pragma once";
      EmptyString;
      "#include <stddef.h>";
      "#include " +:+ dq +:+ "xrt/xrt_defines.h" +:+ dq;
      EmptyString;
      "#ifdef __cplusplus";
      "extern " +:+ dq +:+ "C" +:+ dq +:+ " {";
      "#endif";
      EmptyString;
      "#define OXR_BINDINGS_PROFILE_TEMPLATE_COUNT " ]);
  Placeholder "template_count";
  Lit (join nl
    [ EmptyString;
      EmptyString;
      "// clang-format off";
      EmptyString;
      "#define PATHS_PER_BINDING_TEMPLATE 16";
      EmptyString;
      "enum oxr_dpad_binding_point";
      "{";
      tab +:+ "OXR_DPAD_BINDING_POINT_NONE,";
      tab +:+ "OXR_DPAD_BINDING_POINT_UP,";
      tab +:+ "OXR_DPAD_BINDING_POINT_DOWN,";
      tab +:+ "OXR_DPAD_BINDING_POINT_LEFT,";
      tab +:+ "OXR_DPAD_BINDING_POINT_RIGHT,";
      "};";
      EmptyString;
      "struct dpad_emulation";
      "{";
      tab +:+ "const char *subaction_path;";
      tab +:+ "const char *paths[PATHS_PER_BINDING_TEMPLATE];";
      tab +:+ "enum xrt_input_name position;";
      tab +:+ "enum xrt_input_name activate; // Can be zero";
      "};";
      EmptyString;
      "struct binding_template";
      "{";
      tab +:+ "const char *subaction_path;";
      tab +:+ "const char *steamvr_path;";
      tab +:+ "const char *localized_name;";
      tab +:+ "const char *paths[PATHS_PER_BINDING_TEMPLATE];";
      tab +:+ "enum xrt_input_name input;";
      tab +:+ "enum xrt_input_name dpad_activate;";
      tab +:+ "enum xrt_output_name output;";
      "};";
      EmptyString;
      "struct profile_template";
      "{";
      tab +:+ "enum xrt_device_name name;";
      tab +:+ "const char *path;";
      tab +:+ "const char *localized_name;";
      tab +:+ "const char *steamvr_input_profile_path;";
      tab +:+ "const char *steamvr_controller_type;";
      tab +:+ "struct binding_template *bindings;";
      tab +:+ "size_t binding_count;";
      tab +:+ "struct dpad_emulation *dpads;";
      tab +:+ "size_t dpad_count;";
      EmptyString;
      tab +:+ "const char *extension_name;";
      "};";
      EmptyString;
      "extern struct profile_template profile_templates[OXR_BINDINGS_PROFILE_TEMPLATE_COUNT];";
      "// clang-format on" +:+ dq +:+ ")";
      "#ifdef __cplusplus";
      "}";
      "#endif";
      EmptyString ]) ].

(** ** Sample bindings, for the examples at the end *)

(** One way to fill in what bindings.py provides: every present version is
    valid, feature sets are ordered by the number of their extensions, and
    two availabilities intersect feature set by feature set. *)
Definition sample_version_is_valid (v : Version) : bool := true.
Definition sample_as_tuple (feature_set : FeatureSet) : nat :=
  length (required_extensions feature_set).
Definition sample_both (a b : FeatureSet) : FeatureSet :=
  mkFeatureSet (required_extensions a ++ required_extensions b)
    (match required_version a with
     | Some v => Some v
     | None => required_version b
     end).
Definition sample_intersection (a b : Availability) : Availability :=
  mkAvailability
    (flat_map (fun x => List.map (sample_both x) (feature_sets b)) (feature_sets a)).
Definition sample_header_format (brief group : string) : string :=
  "// " +:+ brief.

Definition sample_fs_version : FeatureSet := mkFeatureSet [] (Some (mkVersion 1 1)).
Definition sample_fs_ext : FeatureSet :=
  mkFeatureSet ["BD_controller_interaction"] None.

Definition sample_click : Component :=
  mkComponent "click" "/user/hand/left" "/input/trackpad" "Trackpad click"
    (Some "XRT_INPUT_TRACKPAD_CLICK") None "/input/trackpad"
    ["/user/hand/left/input/trackpad/click"] true false.

(** A trackpad position whose dpad emulation is activated by the click. *)
Definition sample_position : Component :=
  mkComponent "position" "/user/hand/left" "/input/trackpad" "Trackpad"
    (Some "XRT_INPUT_TRACKPAD") (Some {[ "activate" := "click" ]}) "/input/trackpad"
    ["/user/hand/left/input/trackpad"] true false.

(** The same, naming an activate component the profile does not have. *)
Definition sample_dangling : Component :=
  mkComponent "position" "/user/hand/left" "/input/trackpad" "Trackpad"
    (Some "XRT_INPUT_TRACKPAD") (Some {[ "activate" := "force" ]}) "/input/trackpad"
    ["/user/hand/left/input/trackpad"] true false.

(** The same again, without a binding. *)
Definition sample_unbound : Component :=
  mkComponent "position" "/user/hand/left" "/input/trackpad" "Trackpad"
    None (Some {[ "activate" := "force" ]}) "/input/trackpad"
    ["/user/hand/left/input/trackpad"] true false.

Definition sample_profile_with (components_ : list Component)
    (subpaths : gmap nat (list string)) : Profile :=
  mkProfile "/interaction_profiles/bytedance/pico_neo3_controller" "Pico Neo3"
    "bytedance_pico_neo3_controller" "XRT_DEVICE_PICO_NEO3_CONTROLLER" None
    (Some "BD_controller_interaction") (Some (mkVersion 1 1))
    (mkAvailability [sample_fs_ext; sample_fs_version])
    components_ [] subpaths ∅ ∅.

Definition sample_pico : Profile :=
  sample_profile_with [sample_click; sample_position] {[ 3 := ["abc"] ]}.
Definition sample_twice : Profile :=
  sample_profile_with [sample_click] {[ 3 := ["abc"; "abc"] ]}.
Definition sample_pico_dangling : Profile :=
  sample_profile_with [sample_click; sample_dangling] {[ 3 := ["abc"] ]}.
Definition sample_pico_unbound : Profile :=
  sample_profile_with [sample_click; sample_unbound] {[ 3 := ["abc"] ]}.


Definition sample_bindings_dangling : Bindings :=
  mkBindings [sample_pico; sample_pico_dangling].

(** A profile whose name has no slash in it. *)
Definition sample_nameless : Profile :=
  mkProfile "pico" "Pico" "pico" "XRT_DEVICE_PICO_NEO3_CONTROLLER" None None
    (Some (mkVersion 1 1)) (mkAvailability [mkFeatureSet [] None])
    [sample_click] [] {[ 3 := ["abc"] ]} ∅ ∅.





(** A file system without the directory nodir. *)
Definition sample_can_open (path : string) : bool :=
  negb (String.prefix "nodir/" path).

(** A call like [sample_call] of a newer runtime with the extension on. *)
Definition sample_call_newer : call :=
  mkCall (XR_MAKE_VERSION 1 2 0) {[ "BD_controller_interaction" ]} "abc" 3.

Definition sample_bindings : Bindings := mkBindings [sample_pico].
Definition sample_bindings_twice : Bindings := mkBindings [sample_twice].

(** Outputs for the scripts: an implementation, a header, and a file
    neither script looks for. *)
Definition sample_outputs : list string :=
  [ "gen/oxr_generated_bindings.c"; "gen/oxr_generated_bindings.h"; "notes.txt" ].
Definition sample_ovrd_outputs : list string :=
  [ "gen/ovrd_generated_bindings.c"; "gen/ovrd_generated_bindings.h"; "notes.txt" ].

(** ** oxr_bindings.py: the verification functions *)

Section oxr_bindings.

(** What bindings.py provides and src/ does not hold. *)

(** Which present versions [is_valid_version] accepts. *)
Variable version_is_valid : Version -> bool.
(** [FeatureSet.as_tuple] and the order of the tuples. *)
Variable Key : Type.
Variable key_le : relation Key.
Context `{!RelDecision key_le}.
Variable as_tuple : FeatureSet -> Key.
(** [Availability.intersection] *)
Variable intersection : Availability -> Availability -> Availability.
(** [header.format(brief=..., group=...)] *)
Variable header_format : string -> string -> string.
(** What the file system answers to [open(file, "w")]: whether the path
    can be opened for writing. The answer for a path is the same all
    through a run, and a file that was opened takes what is written to
    it. *)
Variable can_open : string -> bool.

(** Modelled from the spec: [is_valid_version] of bindings.py. The version
    of a feature set or of a profile is optional; an absent one is not
    valid, a present one is valid when [version_is_valid] says so.
    [valid_version] is the test together with the version the callers
    subscript once the test holds. *)
Definition valid_version (version : option Version) : option Version :=
  match version with
  | Some v => if version_is_valid v then Some v else None
  | None => None
  end.

Definition is_valid_version (version : option Version) : bool :=
  match valid_version version with Some _ => true | None => false end.

Definition as_tuple_le : relation FeatureSet :=
  fun a b => key_le (as_tuple a) (as_tuple b).
Definition name_le : relation Profile :=
  fun a b => str_le (name a) (name b).

#[local] Instance as_tuple_le_dec : RelDecision as_tuple_le.
Proof. intros a b. unfold as_tuple_le. apply _. Defined.
#[local] Instance name_le_dec : RelDecision name_le.
Proof. intros a b. unfold name_le, str_le. apply _. Defined.
#[local] Instance nat_le_dec : RelDecision nat_le.
Proof. intros a b. unfold nat_le. apply _. Defined.
#[local] Instance str_le_dec : RelDecision str_le.
Proof. intros a b. unfold str_le. apply _. Defined.

(** The order of pairs whose first component carries the key. *)
Definition on_fst {A B} (R : relation A) : relation (A * B) :=
  fun a b => R (fst a) (fst b).
#[local] Instance on_fst_dec {A B} (R : relation A) `{!RelDecision R} :
  RelDecision (@on_fst A B R).
Proof. intros a b. unfold on_fst. apply _. Defined.

Definition get_verify_switch_body (dict_of_lists : gmap nat (list string))
    (tab_char : string) : list string :=
  [ tab_char +:+ tab +:+ "switch (length) {" ] ++
  flat_map (fun length =>
      [ tab_char +:+ tab +:+ "case " +:+ pretty length +:+ ":" ] ++
      flat_map (fun '(i, path) => strcmp_lines tab_char i path)
        (enumerate (sorted str_le (default [] (dict_of_lists !! length)))) ++
      [ tab_char +:+ tab +:+ tab +:+ "}";
        tab_char +:+ tab +:+ tab +:+ "break;" ])
    (sorted nat_le (map_to_list dict_of_lists).*1) ++
  [ tab_char +:+ tab +:+ "default: break;";
    tab_char +:+ tab +:+ "}" ].

(** The lines of one feature set: [tab_char], [ret] and [closing] as the
    two guards leave them, then the switch and the closing lines. *)
Definition feature_set_lines (dict_of_lists : gmap nat (list string))
    (feature_set : FeatureSet) : list string :=
  let requires_extensions :=
    match required_extensions feature_set with [] => false | _ => true end in
  let tab_char := EmptyString in
  let closing := [] in
  let '(tab_char, ret, closing) :=
    match valid_version (required_version feature_set) with
    | Some v =>
        let tab_char := tab_char +:+ tab in
        (tab_char, [version_guard_line tab_char v],
         closing ++ [tab_char +:+ "}" +:+ nl])
    | None => (tab_char, [], closing)
    end in
  let '(tab_char, ret, closing) :=
    if requires_extensions then
      let tab_char := tab_char +:+ tab in
      let exts := sorted str_le (required_extensions feature_set) in
      let ext_defines := ext_defines_of exts in
      (tab_char,
       ret ++ [ "#if " +:+ ext_defines; ext_guard_line tab_char exts ],
       closing ++ [tab_char +:+ "}" +:+ nl +:+ "#endif // " +:+ ext_defines +:+ nl +:+ nl])
    else (tab_char, ret, closing) in
  ret ++ get_verify_switch_body dict_of_lists tab_char ++ reverse closing.

Definition get_verify_func_switch (dict_of_lists : gmap nat (list string))
    (profile_name : string) (avail : Availability) : list string :=
  if decide (size dict_of_lists = 0) then []
  else
    [ tab +:+ "// generated from: " +:+ profile_name ] ++
    flat_map (feature_set_lines dict_of_lists)
      (sorted as_tuple_le (feature_sets avail)).

(** The parents are sorted by name and then visited. The recursive call is
    attached to each parent before the sort, which only moves the pairs.
    The callers pass a profile and one of three attribute names, so the
    first test of the source (no profile, no name) never holds. *)
Fixpoint get_verify_func_body (profile : Profile) (dn : dict_name)
    (avail : Availability) {struct profile} : list string :=
  get_verify_func_switch (getattr profile dn) (name profile) avail ++
  match parent_profiles profile with
  | None => []
  | Some pps =>
      flat_map (fun '(pp, body_of_pp) =>
          body_of_pp (intersection avail (availability pp)))
        (sorted (on_fst name_le)
           (List.map (fun pp => (pp, get_verify_func_body pp dn)) pps))
  end.

Definition get_verify_func (profile : Profile) (dn : dict_name) (suffix : string)
    : list string :=
  let name := "oxr_verify_" +:+ validation_func_name profile +:+ suffix in
  [ "bool";
    name +:+ "(const struct oxr_extension_status *exts, XrVersion openxr_version, const char *str, size_t length)";
    "{" ] ++
  get_verify_func_body profile dn (availability profile) ++
  [ tab +:+ "return false;";
    "}";
    "" ].

(** The lines of the _ext function, after the three matchers. *)
Definition ext_func_lines (profile : Profile) : list string :=
  [ "void";
    "oxr_verify_" +:+ validation_func_name profile +:+ "_ext(const struct oxr_extension_status *extensions, XrVersion openxr_version, bool *out_supported, bool *out_enabled)";
    "{";
    "" ] ++
  match valid_version (openxr_version_promoted profile) with
  | Some v =>
      [ version_guard_line tab v;
        tab +:+ tab +:+ "*out_supported = true;";
        tab +:+ tab +:+ "*out_enabled = true;";
        tab +:+ tab +:+ "return;";
        tab +:+ "}";
        "" ]
  | None => []
  end ++
  match extension_name profile with
  | Some ext =>
      [ "#ifdef OXR_HAVE_" +:+ ext;
        tab +:+ "*out_supported = true;";
        tab +:+ "*out_enabled = extensions->" +:+ ext +:+ ";";
        "#else";
        tab +:+ "*out_supported = false;";
        tab +:+ "*out_enabled = false;";
        "#endif // OXR_HAVE_" +:+ ext;
        "}";
        "" ]
  | None =>
      [ tab +:+ "*out_supported = true;";
        tab +:+ "*out_enabled = true;";
        "}";
        "" ]
  end.

Definition get_verify_functions (profile : Profile) : list string :=
  get_verify_func profile DSubpaths "_subpath" ++
  get_verify_func profile DDpadPaths "_dpad_path" ++
  get_verify_func profile DDpadEmulators "_dpad_emulator" ++
  ext_func_lines profile.

(** *** The matchers and the _ext function as programs *)

Definition switch_cases (dict_of_lists : gmap nat (list string))
    : list (nat * list string) :=
  List.map (fun length => (length, sorted str_le (default [] (dict_of_lists !! length))))
    (sorted nat_le (map_to_list dict_of_lists).*1).





Definition ext_func_ast (profile : Profile) : list cxstmt :=
  match valid_version (openxr_version_promoted profile) with
  | Some v =>
      [ XIfVersion v [ XAssign OutSupported (XConst true);
                       XAssign OutEnabled (XConst true);
                       XReturn ] ]
  | None => []
  end ++
  match extension_name profile with
  | Some ext =>
      [ XIfdefElse ext
          [ XAssign OutSupported (XConst true); XAssign OutEnabled (XExtField ext) ]
          [ XAssign OutSupported (XConst false); XAssign OutEnabled (XConst false) ] ]
  | None =>
      [ XAssign OutSupported (XConst true); XAssign OutEnabled (XConst true) ]
  end.

(** *** The visits of [get_verify_func_body], told by paths

    The chains of parent references that leave a profile: the empty chain
    (the profile itself) first, then the chains through each parent, the
    parents by name. A chain ends at the ancestor it reaches, and
    accumulates the availability of the profiles along it. *)
Fixpoint ancestor_paths (profile : Profile) : list (list Profile) :=
  [] ::
  match parent_profiles profile with
  | None => []
  | Some pps =>
      flat_map (fun '(pp, paths) => List.map (cons pp) paths)
        (sorted (on_fst name_le) (List.map (fun pp => (pp, ancestor_paths pp)) pps))
  end.

Definition path_end (profile : Profile) (path : list Profile) : Profile :=
  List.last path profile.

Definition path_availability (start : Availability) (path : list Profile)
    : Availability :=
  fold_left (fun av a => intersection av (availability a)) path start.

Inductive parent_chain : Profile -> list Profile -> Prop :=
| chain_nil p : parent_chain p []
| chain_cons p pps pp path :
    parent_profiles p = Some pps -> pp ∈ pps -> parent_chain pp path ->
    parent_chain p (pp :: path).



(** *** generate_bindings_c of oxr_bindings.py *)

Definition oxr_component (profile : Profile) (idx : nat) (component : Component)
    : gen unit :=
  let steamvr_path :=
    if bool_decide (component_name component ∈ ["click"; "touch"; "force"; "value"; "proximity"])
    then steamvr_path component +:+ "/" +:+ component_name component
    else steamvr_path component in
  wl [ tabs 3 +:+ "{ // binding_template " +:+ pretty idx;
       tabs 4 +:+ ".subaction_path = " +:+ dq +:+ subaction_path component +:+ dq +:+ ",";
       tabs 4 +:+ ".steamvr_path = " +:+ dq +:+ steamvr_path +:+ dq +:+ ",";
       tabs 4 +:+ ".localized_name = " +:+ dq +:+ subpath_localized_name component +:+ dq +:+ ",";
       "";
       tabs 4 +:+ ".paths = { // array of paths";
       join nl (List.map (fun path => tabs 5 +:+ dq +:+ path +:+ dq +:+ ",")
                  (get_full_openxr_paths component));
       tabs 5 +:+ "NULL,";
       tabs 4 +:+ "}, // /array of paths" ];;
  (* [has_dpad_emulation()] holds when the mapping is present *)
  (if truthy (monado_binding component) then
     let monado_binding_ := monado_binding component in
     let input_value := "0" in
     let dpad_activate_value := Some "0" in
     let output_value := "0" in
     let input_value :=
       if is_input component then str_opt monado_binding_ else input_value in
     dpad_activate_value ←
       match dpad_emulation component with
       | Some emulation =>
           match emulation !! "activate" with
           | Some activate =>
               activate_component ←
                 deref AttributeError
                   (find_component_in_list_by_name activate (components profile)
                      (subaction_path component) (identifier_json_path component));
               mret (monado_binding activate_component)
           | None => mret dpad_activate_value
           end
       | None => mret dpad_activate_value
       end;
     let output_value :=
       if is_output component then str_opt monado_binding_ else output_value in
     wl [ tabs 4 +:+ ".input = " +:+ input_value +:+ ",";
          tabs 4 +:+ ".dpad_activate = " +:+ str_opt dpad_activate_value +:+ ",";
          tabs 4 +:+ ".output = " +:+ output_value +:+ "," ]
   else mret tt);;
  wl [ tabs 3 +:+ "}, // /binding_template " +:+ pretty idx ].

Definition oxr_dpad (identifier : Identifier) : gen unit :=
  write (tabs 3 +:+ "{" +:+ nl);;
  write (tabs 4 +:+ ".subaction_path = " +:+ dq +:+ identifier_subaction_path identifier
           +:+ dq +:+ "," +:+ nl);;
  write (tabs 4 +:+ ".paths = {" +:+ nl);;
  d ← deref AttributeError (dpad identifier);
  for_each (dpad_paths d) (fun path =>
    write (tabs 5 +:+ dq +:+ path +:+ dq +:+ "," +:+ nl));;
  write (tabs 4 +:+ "}," +:+ nl);;
  write (tabs 4 +:+ ".position = " +:+ str_opt (monado_binding (position_component d))
           +:+ "," +:+ nl);;
  match activate_component d with
  | Some activate =>
      write (tabs 4 +:+ ".activate = " +:+ str_opt (monado_binding activate) +:+ "," +:+ nl)
  | None => write (tabs 4 +:+ ".activate = 0")
  end;;
  write (tabs 3 +:+ "}," +:+ nl).

Definition oxr_dpads (profile : Profile) : gen unit :=
  let dpads := filter (fun identifier => is_Some (dpad identifier)) (identifiers profile) in
  let dpad_count := length dpads in
  write (tabs 2 +:+ ".dpad_count = " +:+ pretty dpad_count +:+ "," +:+ nl);;
  if Nat.eqb (length dpads) 0 then
    write (tabs 2 +:+ ".dpads = NULL," +:+ nl)
  else
    write (tabs 2 +:+ ".dpads = (struct dpad_emulation[]){ // array of dpad_emulation" +:+ nl);;
    for_each dpads oxr_dpad;;
    write (tabs 2 +:+ "}, // /array of dpad_emulation" +:+ nl).

(** The binding records and the dpad records of a profile. *)
Definition oxr_records (profile : Profile) : gen unit :=
  for_each (enumerate (components profile)) (fun '(idx, component) =>
    oxr_component profile idx component);;
  wl [ tabs 2 +:+ "}, // /array of binding_template" ];;
  oxr_dpads profile.

(** The head of a profile template, up to the opening of its bindings. *)
Definition oxr_profile_head (profile : Profile) : gen unit :=
  hw_name ← deref IndexError (index_m1 (split_slash (name profile)));
  vendor_name ← deref IndexError (index_m2 (split_slash (name profile)));
  let fname := vendor_name +:+ "_" +:+ hw_name +:+ "_profile.json" in
  let controller_type := "monado_" +:+ vendor_name +:+ "_" +:+ hw_name in
  let binding_count := length (components profile) in
  wl [ tab +:+ "{ // profile_template";
       tabs 2 +:+ ".name = " +:+ monado_device_enum profile +:+ ",";
       tabs 2 +:+ ".path = " +:+ dq +:+ name profile +:+ dq +:+ ",";
       tabs 2 +:+ ".localized_name = " +:+ dq +:+ localized_name profile +:+ dq +:+ ",";
       tabs 2 +:+ ".steamvr_input_profile_path = " +:+ dq +:+ fname +:+ dq +:+ ",";
       tabs 2 +:+ ".steamvr_controller_type = " +:+ dq +:+ controller_type +:+ dq +:+ ",";
       tabs 2 +:+ ".binding_count = " +:+ pretty binding_count +:+ ",";
       tabs 2 +:+ ".bindings = (struct binding_template[]){ // array of binding_template" ].

(** The end of a profile template, from the promoted version on. *)
Definition oxr_profile_tail (profile : Profile) : gen unit :=
  promoted ← deref TypeError (openxr_version_promoted profile);
  write (tabs 2 +:+ ".openxr_version.promoted.major = " +:+ pretty (major promoted)
           +:+ "," +:+ nl);;
  promoted ← deref TypeError (openxr_version_promoted profile);
  write (tabs 2 +:+ ".openxr_version.promoted.minor = " +:+ pretty (minor promoted)
           +:+ "," +:+ nl);;
  for_each ["subpath"; "dpad_path"; "dpad_emulator"] (fun prefix =>
    write (tabs 2 +:+ "." +:+ prefix +:+ "_fn = oxr_verify_"
             +:+ validation_func_name profile +:+ "_" +:+ prefix +:+ "," +:+ nl));;
  write (tabs 2 +:+ ".ext_verify_fn = oxr_verify_" +:+ validation_func_name profile
           +:+ "_ext," +:+ nl);;
  match extension_name profile with
  | None => write (tabs 2 +:+ ".extension_name = NULL," +:+ nl)
  | Some ext => write (tabs 2 +:+ ".extension_name = " +:+ dq +:+ ext +:+ dq +:+ "," +:+ nl)
  end;;
  write (tab +:+ "}, // /profile_template" +:+ nl).

(** One pass of the loop over the profiles. *)
Definition oxr_profile (profile : Profile) : gen unit :=
  oxr_profile_head profile;;
  oxr_records profile;;
  oxr_profile_tail profile.

(** The first [wl]: the includes and the verification functions of all
    the profiles, then the opening of the array of templates. *)
Definition oxr_preamble (b : Bindings) : gen unit :=
  wl ([ header_format "Generated bindings data" "oxr_main";
        "#include " +:+ dq +:+ "oxr_bindings/b_oxr_generated_bindings.h" +:+ dq;
        "#include <string.h>";
        "#include " +:+ dq +:+ "oxr_objects.h" +:+ dq;
        "";
        "// clang-format off";
        "" ] ++
      flat_map get_verify_functions (profiles b) ++
      [ nl +:+ nl +:+ "struct profile_template profile_templates["
          +:+ pretty (length (profiles b)) +:+ "] = { // array of profile_template" ]).

(** [generate_bindings_c] after its first statement, [f = open(file, "w")],
    has given it the file, emptied: what it writes from there, and the
    exception that stops it, if one does; [f.close()] is the last
    statement. That [open] itself may raise is in
    [generate_bindings_c_file] below, the function with its file. *)
Definition generate_bindings_c_from (b : Bindings) : gen unit :=
  oxr_preamble b;;
  for_each (profiles b) oxr_profile;;
  write ("}; // /array of profile_template" +:+ nl +:+ nl);;
  write (nl +:+ "// clang-format on" +:+ nl).

Definition generate_bindings_c (b : Bindings) : string * result unit :=
  generate_bindings_c_from b EmptyString.

(** ** ovrd_bindings.py: ovrd_generate_bindings_c *)

Definition ovrd_component (profile : Profile) (idx : nat) (component : Component)
    : gen unit :=
  let steamvr_path :=
    if bool_decide (component_name component ∈ ["click"; "touch"; "force"; "value"; "proximity"])
    then steamvr_path component +:+ "/" +:+ component_name component
    else steamvr_path component in
  wl [ tabs 3 +:+ "{ // binding_template " +:+ pretty idx;
       tabs 4 +:+ ".subaction_path = " +:+ dq +:+ subaction_path component +:+ dq +:+ ",";
       tabs 4 +:+ ".steamvr_path = " +:+ dq +:+ steamvr_path +:+ dq +:+ ",";
       tabs 4 +:+ ".localized_name = " +:+ dq +:+ subpath_localized_name component +:+ dq +:+ ",";
       "";
       tabs 4 +:+ ".paths = { // array of paths";
       join nl (List.map (fun path => tabs 5 +:+ dq +:+ path +:+ dq +:+ ",")
                  (get_full_openxr_paths component));
       tabs 5 +:+ "NULL,";
       tabs 4 +:+ "}, // /array of paths" ];;
  (if truthy (monado_binding component) then
     let monado_binding_ := monado_binding component in
     (if is_input component then
        write (tabs 4 +:+ ".input = " +:+ str_opt monado_binding_ +:+ "," +:+ nl)
      else
        write (tabs 4 +:+ ".input = 0," +:+ nl));;
     match dpad_emulation component with
     | Some emulation =>
         match emulation !! "activate" with
         | Some activate =>
             activate_component ←
               deref AttributeError
                 (find_component_in_list_by_name activate (components profile)
                    (subaction_path component) (identifier_json_path component));
             write (tabs 4 +:+ ".dpad_activate = "
                      +:+ str_opt (monado_binding activate_component) +:+ "," +:+ nl)
         | None => write (tabs 4 +:+ ".dpad_activate = 0," +:+ nl)
         end
     | None => write (tabs 4 +:+ ".dpad_activate = 0," +:+ nl)
     end;;
     if is_output component then
       write (tabs 4 +:+ ".output = " +:+ str_opt monado_binding_ +:+ "," +:+ nl)
     else
       write (tabs 4 +:+ ".output = 0," +:+ nl)
   else mret tt);;
  write (tabs 3 +:+ "}, // /binding_template " +:+ pretty idx +:+ nl).

Definition ovrd_dpad (identifier : Identifier) : gen unit :=
  write (tabs 3 +:+ "{" +:+ nl);;
  write (tabs 4 +:+ ".subaction_path = " +:+ dq +:+ identifier_subaction_path identifier
           +:+ dq +:+ "," +:+ nl);;
  write (tabs 4 +:+ ".paths = {" +:+ nl);;
  d ← deref AttributeError (dpad identifier);
  for_each (dpad_paths d) (fun path =>
    write (tabs 5 +:+ dq +:+ path +:+ dq +:+ "," +:+ nl));;
  write (tabs 4 +:+ "}," +:+ nl);;
  write (tabs 4 +:+ ".position = " +:+ str_opt (monado_binding (position_component d))
           +:+ "," +:+ nl);;
  match activate_component d with
  | Some activate =>
      write (tabs 4 +:+ ".activate = " +:+ str_opt (monado_binding activate) +:+ "," +:+ nl)
  | None => write (tabs 4 +:+ ".activate = 0")
  end;;
  write (tabs 3 +:+ "}," +:+ nl).

Definition ovrd_dpads (profile : Profile) : gen unit :=
  let dpads := filter (fun identifier => is_Some (dpad identifier)) (identifiers profile) in
  let dpad_count := length dpads in
  write (tabs 2 +:+ ".dpad_count = " +:+ pretty dpad_count +:+ "," +:+ nl);;
  if Nat.eqb (length dpads) 0 then
    write (tabs 2 +:+ ".dpads = NULL," +:+ nl)
  else
    write (tabs 2 +:+ ".dpads = (struct dpad_emulation[]){ // array of dpad_emulation" +:+ nl);;
    for_each dpads ovrd_dpad;;
    write (tabs 2 +:+ "}, // /array of dpad_emulation" +:+ nl).

(** The binding records and the dpad records of a profile. *)
Definition ovrd_records (profile : Profile) : gen unit :=
  for_each (enumerate (components profile)) (fun '(idx, component) =>
    ovrd_component profile idx component);;
  write (tabs 2 +:+ "}, // /array of binding_template" +:+ nl);;
  ovrd_dpads profile.

Definition ovrd_profile_head (profile : Profile) : gen unit :=
  hw_name ← deref IndexError (index_m1 (split_slash (name profile)));
  vendor_name ← deref IndexError (index_m2 (split_slash (name profile)));
  let fname := vendor_name +:+ "_" +:+ hw_name +:+ "_profile.json" in
  let controller_type := "monado_" +:+ vendor_name +:+ "_" +:+ hw_name in
  let binding_count := length (components profile) in
  wl [ tab +:+ "{ // profile_template";
       tabs 2 +:+ ".name = " +:+ monado_device_enum profile +:+ ",";
       tabs 2 +:+ ".path = " +:+ dq +:+ name profile +:+ dq +:+ ",";
       tabs 2 +:+ ".localized_name = " +:+ dq +:+ localized_name profile +:+ dq +:+ ",";
       tabs 2 +:+ ".steamvr_input_profile_path = " +:+ dq +:+ fname +:+ dq +:+ ",";
       tabs 2 +:+ ".steamvr_controller_type = " +:+ dq +:+ controller_type +:+ dq +:+ ",";
       tabs 2 +:+ ".binding_count = " +:+ pretty binding_count +:+ ",";
       tabs 2 +:+ ".bindings = (struct binding_template[]){ // array of binding_template" ].

Definition ovrd_profile (profile : Profile) : gen unit :=
  ovrd_profile_head profile;;
  ovrd_records profile;;
  write (tab +:+ "}, // /profile_template" +:+ nl).

(** [ovrd_generate_bindings_c] after [open] has given it the file, as
    [generate_bindings_c_from] above; [ovrd_generate_bindings_c_file] is
    the function with its file and the OSError of [open]. *)
Definition ovrd_generate_bindings_c_from (b : Bindings) : gen unit :=
  wl [ header_format "Generated bindings data" "oxr_main";
       "#include " +:+ dq +:+ "b_ovrd_generated_bindings.h" +:+ dq;
       "#include <string.h>";
       "";
       "// clang-format off";
       "";
       nl +:+ nl +:+ "struct profile_template profile_templates["
         +:+ pretty (length (profiles b)) +:+ "] = { // array of profile_template" ];;
  for_each (profiles b) ovrd_profile;;
  write ("}; // /array of profile_template" +:+ nl +:+ nl);;
  write (nl +:+ "// clang-format on" +:+ nl).

Definition ovrd_generate_bindings_c (b : Bindings) : string * result unit :=
  ovrd_generate_bindings_c_from b EmptyString.

(** ** oxr_bindings.py: generate_bindings_h and main *)

(** The prototypes of the four functions of every profile. *)
Definition verify_protos (b : Bindings) : list string :=
  flat_map (fun profile =>
      flat_map (fun fn_suffix =>
          [ "bool";
            "oxr_verify_" +:+ validation_func_name profile +:+ fn_suffix
              +:+ "(const struct oxr_extension_status *extensions, XrVersion openxr_major_minor, const char *str, size_t length);";
            "" ])
        [ "_subpath"; "_dpad_path"; "_dpad_emulator" ] ++
      [ "void";
        "oxr_verify_" +:+ validation_func_name profile
          +:+ "_ext(const struct oxr_extension_status *extensions, XrVersion openxr_version, bool *out_supported, bool *out_enabled);";
        "" ])
    (profiles b).

(** The keyword arguments of [H_TEMPLATE.substitute]. *)
Definition h_mapping (b : Bindings) : gmap string string :=
  <["header" := header_format "Generated bindings data" "oxr_main"]>
  (<["template_count" := pretty (length (profiles b))]>
  (<["verify_protos" := join nl (verify_protos b)]> ∅)).

(** [generate_bindings_h(file, b)]: the prototypes are collected, then the
    file is opened, which raises an OSError and leaves the files as they
    are, or creates or empties the file; the template is filled in after
    that, and written in one piece. *)
Definition generate_bindings_h (file : string) (b : Bindings) : script :=
  fun fs => if can_open file
            then match substitute H_TEMPLATE (h_mapping b) with
                 | Some filled => (<[file := filled]> fs, None)
                 | None => (<[file := EmptyString]> fs, Some KeyError)
                 end
            else (fs, Some OSError).

(** [generate_bindings_c(file, b)] with its file: [open] is its first
    statement, and raises an OSError, nothing written and the files as
    they are, or creates or empties the file. The file then holds what
    [generate_bindings_c] above, the run from the opened file on, wrote
    when it ends or an exception stops it. *)
Definition generate_bindings_c_file (file : string) (b : Bindings) : script :=
  fun fs => if can_open file
            then match generate_bindings_c b with
                 | (text, Ok _) => (<[file := text]> fs, None)
                 | (text, Raise e) => (<[file := text]> fs, Some (Generator e))
                 end
            else (fs, Some OSError).

(** [main], from the parsed arguments on: the outputs of the command line
    (one or more) and the bindings that [Bindings.load_and_parse] returned.
    The two tests of an output are two [if]s, not an [if] and an [else]. *)
Definition main (outputs : list string) (bindings : Bindings) : script :=
  for_outputs outputs (fun output =>
    and_then
      (when (endswith output "oxr_generated_bindings.c")
         (generate_bindings_c_file output bindings))
      (when (endswith output "oxr_generated_bindings.h")
         (generate_bindings_h output bindings))).

(** ** ovrd_bindings.py: ovrd_generate_bindings_h and main

    As in oxr_bindings.py, without the prototypes and with the names of
    the SteamVR driver. *)

(** The keyword arguments of [H_TEMPLATE.substitute]. *)
Definition ovrd_h_mapping (b : Bindings) : gmap string string :=
  <["header" := header_format "Generated bindings data" "oxr_main"]>
  (<["template_count" := pretty (length (profiles b))]> ∅).

(** [ovrd_generate_bindings_h(file, b)]: the file is opened, or [open]
    raises an OSError, before the template is filled in. *)
Definition ovrd_generate_bindings_h (file : string) (b : Bindings) : script :=
  fun fs => if can_open file
            then match substitute ovrd_H_TEMPLATE (ovrd_h_mapping b) with
                 | Some filled => (<[file := filled]> fs, None)
                 | None => (<[file := EmptyString]> fs, Some KeyError)
                 end
            else (fs, Some OSError).

(** [ovrd_generate_bindings_c(file, b)] with its file: [open], which may
    raise an OSError, then the run from the opened file on. *)
Definition ovrd_generate_bindings_c_file (file : string) (b : Bindings) : script :=
  fun fs => if can_open file
            then match ovrd_generate_bindings_c b with
                 | (text, Ok _) => (<[file := text]> fs, None)
                 | (text, Raise e) => (<[file := text]> fs, Some (Generator e))
                 end
            else (fs, Some OSError).

Definition ovrd_main (outputs : list string) (bindings : Bindings) : script :=
  for_outputs outputs (fun output =>
    and_then
      (when (endswith output "ovrd_generated_bindings.c")
         (ovrd_generate_bindings_c_file output bindings))
      (when (endswith output "ovrd_generated_bindings.h")
         (ovrd_generate_bindings_h output bindings))).

(** ** Definitions the statements use *)



(** [m2] does what [m1] does, except that it may have written some more
    when both stop on the same exception. *)
Definition same_upto {A} (m1 m2 : gen A) : Prop :=
  ∀ f, ∃ extra,
    m2 f = (fst (m1 f) +:+ extra, snd (m1 f)) ∧
    (∀ x, snd (m1 f) = Ok x → extra = EmptyString).

(** Nothing written is taken back: a run only adds to the file. *)
Definition appends {A} (m : gen A) : Prop := ∀ f, ∃ s, fst (m f) = f +:+ s.

(** What the activate entry of the dpad emulation of [component] asks of
    the component it names. *)
Definition names_activate (component : Component) (activate : string)
    (found : Component) : Prop :=
  component_name found = activate ∧
  subaction_path found = subaction_path component ∧
  identifier_json_path found = identifier_json_path component.


(** ** Definitions the further statements use *)

(** A run that ends without an exception. *)
Definition succeeds {A} (m : gen A) (f : string) : Prop := ∃ x, snd (m f) = Ok x.

(** A run whose success does not depend on what the file holds. *)
Definition succeeds_iff {A} (m : gen A) (P : Prop) : Prop := ∀ f, succeeds m f ↔ P.

(** A string with a slash in it. *)
Definition has_slash (s : string) : Prop := ∃ pre post, s = pre +:+ "/" +:+ post.

(** The same, as a test. *)
Fixpoint contains_slash (s : string) : bool :=
  match s with
  | EmptyString => false
  | String c s' => Ascii.eqb c (Ascii.ascii_of_nat 47) || contains_slash s'
  end.

(** The activate entry of the dpad emulation of a component that has a
    binding names a component of the profile. *)
Definition activate_resolves (profile : Profile) (component : Component) : Prop :=
  ∀ emulation activate,
    truthy (monado_binding component) = true →
    dpad_emulation component = Some emulation →
    emulation !! "activate" = Some activate →
    ∃ found, found ∈ components profile ∧ names_activate component activate found.

(** What [generate_bindings_h] and [ovrd_generate_bindings_h] write: the
    filled template. The empty text stands for a template that cannot be
    filled, which [substitute_H_TEMPLATE] and [substitute_ovrd_H_TEMPLATE]
    show does not arise. *)
Definition header_text (b : Bindings) : string :=
  default EmptyString (substitute H_TEMPLATE (h_mapping b)).
Definition ovrd_header_text (b : Bindings) : string :=
  default EmptyString (substitute ovrd_H_TEMPLATE (ovrd_h_mapping b)).

(** The shape of both [main]s: for every output, the generator of the
    implementation if the name ends in [c_suffix], then the generator of the
    header if it ends in [h_suffix]. *)
Definition dispatch (c_suffix h_suffix : string) (gc gh : string → script)
    (outputs : list string) : script :=
  for_outputs outputs (fun output =>
    and_then (when (endswith output c_suffix) (gc output))
             (when (endswith output h_suffix) (gh output))).

(** How a generator that stopped, or did not, ends [main]. *)
Definition failure_of (r : result unit) : option failure :=
  match r with Ok _ => None | Raise e => Some (Generator e) end.

(** ** Facts about the helpers *)

Section sorted_facts.
Context {A : Type} (R : relation A) `{!RelDecision R}.

Lemma insert_sorted_Permutation x l : insert_sorted R x l ≡ₚ x :: l.
Proof.
  induction l as [|y l IH]; simpl; [done|].
  destruct (decide (R x y)); [done|].
  rewrite IH. apply Permutation_swap.
Qed.

Lemma sorted_Permutation l : sorted R l ≡ₚ l.
Proof.
  induction l as [|x l IH]; simpl; [done|].
  by rewrite insert_sorted_Permutation, IH.
Qed.

Lemma elem_of_sorted x l : x ∈ sorted R l ↔ x ∈ l.
Proof. by rewrite sorted_Permutation. Qed.

Lemma insert_sorted_Sorted `{!Total R} x l :
  Sorted R l → Sorted R (insert_sorted R x l).
Proof.
  induction 1 as [|y l Hl IH Hhd]; simpl.
  { repeat constructor. }
  destruct (decide (R x y)) as [Hxy|Hxy].
  { repeat constructor; done. }
  constructor; [done|].
  destruct Hhd as [|z l Hyz]; simpl.
  - constructor. by destruct (total R x y).
  - destruct (decide (R x z)); constructor; [|done].
    by destruct (total R x y).
Qed.

Lemma sorted_Sorted `{!Total R} l : Sorted R (sorted R l).
Proof.
  induction l as [|x l IH]; simpl; [constructor|].
  by apply insert_sorted_Sorted.
Qed.

Lemma sorted_StronglySorted `{!Total R, !Transitive R} l :
  StronglySorted R (sorted R l).
Proof. apply Sorted_StronglySorted; [done|]. apply sorted_Sorted. Qed.

(** Two enumerations of the same elements sort to the same list when
    the order tells the elements apart. *)
Lemma sorted_Permutation_eq `{!Total R, !Transitive R} l1 l2 :
  (∀ x y, x ∈ l1 → y ∈ l1 → R x y → R y x → x = y) →
  l1 ≡ₚ l2 → sorted R l1 = sorted R l2.
Proof.
  intros Hanti Hperm.
  apply (StronglySorted_unique_strong R).
  - intros x y Hx Hy. rewrite elem_of_sorted in Hx.
    rewrite elem_of_sorted, <-Hperm in Hy. by apply Hanti.
  - apply sorted_StronglySorted.
  - apply sorted_StronglySorted.
  - by rewrite !sorted_Permutation.
Qed.

(** Sorting pairs by their first component moves the second along. *)
Lemma sorted_pair {B} (f : A → B) l :
  sorted (on_fst R) (List.map (fun x => (x, f x)) l)
  = List.map (fun x => (x, f x)) (sorted R l).
Proof.
  induction l as [|x l IH]; simpl; [done|].
  rewrite IH. generalize (sorted R l). intros l'.
  induction l' as [|y l' IH']; simpl; [done|].
  destruct (decide (on_fst R (x, f x) (y, f y))) as [H1|H1],
    (decide (R x y)) as [H2|H2]; simpl; try done.
  by rewrite IH'.
Qed.
End sorted_facts.

Lemma str_app_assoc (a b c : string) : (a +:+ b) +:+ c = a +:+ b +:+ c.
Proof.
  induction a as [|x a IH]; [done|].
  change (String x ((a +:+ b) +:+ c) = String x (a +:+ b +:+ c)). by rewrite IH.
Qed.

Lemma str_app_nil_r (a : string) : a +:+ EmptyString = a.
Proof.
  induction a as [|x a IH]; [done|].
  change (String x (a +:+ EmptyString) = String x a). by rewrite IH.
Qed.

Lemma flat_map_map {A B C} (f : B → list C) (g : A → B) l :
  flat_map f (List.map g l) = flat_map (fun x => f (g x)) l.
Proof. induction l as [|x l IH]; simpl; congruence. Qed.

Lemma flat_map_flat_map {A B C} (f : B → list C) (g : A → list B) l :
  flat_map f (flat_map g l) = flat_map (fun x => flat_map f (g x)) l.
Proof.
  induction l as [|x l IH]; simpl; [done|].
  by rewrite flat_map_app, IH.
Qed.

Lemma flat_map_ext_Forall {A B} (f g : A → list B) l :
  Forall (fun x => f x = g x) l → flat_map f l = flat_map g l.
Proof. induction 1; simpl; congruence. Qed.

Lemma elem_of_flat_map {A B} (f : A → list B) l y :
  y ∈ flat_map f l ↔ ∃ x, x ∈ l ∧ y ∈ f x.
Proof.
  setoid_rewrite list_elem_of_In. apply in_flat_map.
Qed.

Lemma last_cons_default {A} (a d : A) l : List.last (a :: l) d = List.last l a.
Proof.
  revert a d. induction l as [|b l IH]; intros a d; [done|].
  change (List.last (a :: b :: l) d) with (List.last (b :: l) d).
  rewrite IH. symmetry. apply IH.
Qed.

(** ** The walk over the parents *)

(** Induction on a profile, with the property at hand for its parents. *)
Lemma Profile_parents_ind (P : Profile → Prop) :
  (∀ p, (∀ pps, parent_profiles p = Some pps → Forall P pps) → P p) →
  ∀ p, P p.
Proof.
  intros H. fix F 1. intros [n ln vn de o en ov av cs ids d1 d2 d3].
  apply H. simpl. intros pps Heq. destruct o as [l|]; [|discriminate].
  injection Heq as <-.
  induction l as [|x l IHl]; constructor; [apply F | apply IHl].
Qed.

Lemma get_verify_func_body_eq profile dn avail :
  get_verify_func_body profile dn avail =
  get_verify_func_switch (getattr profile dn) (name profile) avail ++
  match parent_profiles profile with
  | None => []
  | Some pps =>
      flat_map (fun pp => get_verify_func_body pp dn (intersection avail (availability pp)))
        (sorted name_le pps)
  end.
Proof.
  destruct profile as [n ln vn de o en ov av cs ids d1 d2 d3]; simpl.
  f_equal. destruct o as [pps|]; [|done].
  rewrite (sorted_pair name_le (fun pp => get_verify_func_body pp dn)).
  by rewrite flat_map_map.
Qed.


Lemma ancestor_paths_eq profile :
  ancestor_paths profile =
  [] :: match parent_profiles profile with
        | None => []
        | Some pps =>
            flat_map (fun pp => List.map (cons pp) (ancestor_paths pp)) (sorted name_le pps)
        end.
Proof.
  destruct profile as [n ln vn de o en ov av cs ids d1 d2 d3]; simpl.
  f_equal. destruct o as [pps|]; [|done].
  rewrite (sorted_pair name_le ancestor_paths).
  by rewrite flat_map_map.
Qed.

(** The chains [ancestor_paths] lists are the chains of parent references. *)
Lemma ancestor_paths_chain profile path :
  path ∈ ancestor_paths profile ↔ parent_chain profile path.
Proof.
  split.
  - revert path. induction profile as [p IH] using Profile_parents_ind.
    intros path. rewrite ancestor_paths_eq.
    intros [->|Hin]%elem_of_cons; [constructor|].
    destruct (parent_profiles p) as [pps|] eqn:Hpps; [|by apply elem_of_nil in Hin].
    apply elem_of_flat_map in Hin as (pp & Hpp & Hin).
    apply elem_of_sorted in Hpp.
    apply list_elem_of_fmap in Hin as (path' & -> & Hin).
    econstructor; [done..|].
    specialize (IH pps eq_refl). rewrite Forall_forall in IH. by apply IH.
  - induction 1 as [p|p pps pp path Hpps Hpp _ IH]; rewrite ancestor_paths_eq.
    + apply elem_of_cons; by left.
    + rewrite Hpps. apply elem_of_cons; right.
      apply elem_of_flat_map. exists pp. split; [by apply elem_of_sorted|].
      apply list_elem_of_fmap. by exists path.
Qed.

(** A function that emits the section of a profile and then walks the
    sorted parents emits one section per chain, in the order of the chains:
    the section of the profile the chain ends at, under the availability
    accumulated along the chain. *)
Lemma walk_paths {A} (sw : gmap nat (list string) → string → Availability → list A)
    (F : Profile → dict_name → Availability → list A) :
  (∀ profile dn avail,
      F profile dn avail =
      sw (getattr profile dn) (name profile) avail ++
      match parent_profiles profile with
      | None => []
      | Some pps =>
          flat_map (fun pp => F pp dn (intersection avail (availability pp)))
            (sorted name_le pps)
      end) →
  ∀ profile dn avail,
    F profile dn avail =
    flat_map (fun path =>
        sw (getattr (path_end profile path) dn) (name (path_end profile path))
           (path_availability avail path))
      (ancestor_paths profile).
Proof.
  intros HF profile dn.
  induction profile as [p IH] using Profile_parents_ind. intros avail.
  rewrite HF, ancestor_paths_eq. simpl. f_equal.
  destruct (parent_profiles p) as [pps|] eqn:Hpps; [|done].
  rewrite flat_map_flat_map. apply flat_map_ext_Forall.
  apply Forall_forall. intros pp Hpp%elem_of_sorted.
  specialize (IH pps eq_refl). rewrite Forall_forall in IH.
  rewrite (IH pp Hpp), flat_map_map.
  apply flat_map_ext_Forall, Forall_forall. intros path _.
  unfold path_end. by rewrite last_cons_default.
Qed.

Lemma get_verify_func_body_paths profile dn avail :
  get_verify_func_body profile dn avail =
  flat_map (fun path =>
      get_verify_func_switch (getattr (path_end profile path) dn)
        (name (path_end profile path)) (path_availability avail path))
    (ancestor_paths profile).
Proof. apply (walk_paths get_verify_func_switch), get_verify_func_body_eq. Qed.


(** ** The programs print as the emitted lines *)

Lemma print_else_ifs_strcmp tab_char (f : nat → nat) literals :
  (∀ i, f i ≠ 0) →
  print_else_ifs (tab_char +:+ tab +:+ tab) literals
  = flat_map (fun '(i, path) => strcmp_lines tab_char i path)
      (imap (fun i x => (f i, x)) literals)
    ++ [ tab_char +:+ tab +:+ tab +:+ "}" ].
Proof.
  clear. revert f. induction literals as [|literal literals IH]; intros f Hf.
  - cbn [print_else_ifs imap flat_map app]. by rewrite !str_app_assoc.
  - rewrite imap_cons. cbn [print_else_ifs flat_map].
    change (imap ((fun i x => (f i, x)) ∘ S) literals)
      with (imap (fun i x => ((f ∘ S) i, x)) literals).
    rewrite (IH (f ∘ S)) by (intros i; apply Hf).
    unfold strcmp_lines, print_strcmp_test.
    destruct (Nat.eqb_spec (f 0) 0) as [H0|_]; [by destruct (Hf 0)|].
    cbn [app]. rewrite !str_app_assoc. reflexivity.
Qed.

(** The chain of a case is the lines the generator writes for the entries
    of a bucket, the first with [if] and the others with [else if], and the
    closing brace it writes after them. *)
Lemma print_chain_strcmp tab_char literals :
  print_chain (tab_char +:+ tab +:+ tab) literals
  = flat_map (fun '(i, path) => strcmp_lines tab_char i path) (enumerate literals)
    ++ [ tab_char +:+ tab +:+ tab +:+ "}" ].
Proof.
  clear. unfold enumerate. destruct literals as [|literal literals].
  - cbn [print_chain imap flat_map app]. by rewrite !str_app_assoc.
  - rewrite imap_cons. cbn [print_chain flat_map].
    change (imap ((fun i x => (i, x)) ∘ S) literals)
      with (imap (fun i x => (S i, x)) literals).
    rewrite (print_else_ifs_strcmp tab_char S) by done.
    unfold strcmp_lines, print_strcmp_test.
    cbn [app Nat.eqb]. rewrite !str_app_assoc. reflexivity.
Qed.

Lemma print_switch_cases dict_of_lists tab_char :
  print_switch tab_char (switch_cases dict_of_lists)
  = get_verify_switch_body dict_of_lists tab_char.
Proof.
  clear. unfold print_switch, switch_cases, get_verify_switch_body.
  rewrite flat_map_map. do 2 f_equal.
  apply flat_map_ext_Forall, Forall_forall. intros length _.
  unfold print_case. cbn [fst snd]. rewrite print_chain_strcmp.
  by rewrite <-!app_assoc.
Qed.

Lemma version_guard_line_print tab_char v :
  tab_char +:+ "if (" +:+ print_version_test v +:+ ") {" = version_guard_line tab_char v.
Proof.
  clear. unfold print_version_test, version_guard_line.
  rewrite !str_app_assoc. reflexivity.
Qed.







Lemma print_ext_func_ast profile :
  print_ext_func ("oxr_verify_" +:+ validation_func_name profile +:+ "_ext")
    (ext_func_ast profile)
  = ext_func_lines profile.
Proof.
  unfold print_ext_func, ext_func_ast, ext_func_lines.
  rewrite !str_app_assoc.
  destruct (valid_version (openxr_version_promoted profile)) as [v|],
    (extension_name profile) as [ext|];
    cbn [flat_map print_cxstmt app]; rewrite ?version_guard_line_print; reflexivity.
Qed.

(** ** What a matcher computes *)


Lemma run_seq_app {A} (f : A → outcome) l1 l2 :
  run_seq f (l1 ++ l2) =
  if fst (run_seq f l1) then run_seq f l1
  else (fst (run_seq f l2), snd (run_seq f l1) ++ snd (run_seq f l2)).
Proof.
  induction l1 as [|x l1 IH]; simpl.
  { by destruct (run_seq f l2). }
  destruct (f x) as [[] t]; simpl; [done|].
  rewrite IH. destruct (run_seq f l1) as [[] t1]; simpl; [done|].
  destruct (run_seq f l2) as [r2 t2]; simpl. by rewrite app_assoc.
Qed.


Lemma run_seq_flat_map_true {A B} (f : B → outcome) (g : A → list B) l :
  fst (run_seq f (flat_map g l)) = true ↔ ∃ x, x ∈ l ∧ fst (run_seq f (g x)) = true.
Proof.
  induction l as [|x l IH]; simpl.
  { split; [done|]. by intros (? & ?%elem_of_nil & _). }
  rewrite run_seq_app. setoid_rewrite elem_of_cons.
  destruct (run_seq f (g x)) as [[] t] eqn:Hx; simpl.
  - split; [|done]. intros _. exists x. rewrite Hx. auto.
  - rewrite IH. split.
    + intros (y & ? & ?). eauto.
    + intros (y & [->|?] & Hy); [by rewrite Hx in Hy|eauto].
Qed.

Lemma run_seq_flat_map_skip {A B} (f : B → outcome) (g : A → list B) l :
  (∀ x, x ∈ l → run_seq f (g x) = (false, [])) →
  run_seq f (flat_map g l) = (false, []).
Proof.
  induction l as [|x l IH]; intros Hl; simpl; [done|].
  rewrite run_seq_app, (Hl x), IH; [done| |by left].
  intros y Hy. apply Hl. by right.
Qed.




Lemma elem_of_dict_keys (dict_of_lists : gmap nat (list string)) n :
  n ∈ sorted nat_le (map_to_list dict_of_lists).*1 ↔ is_Some (dict_of_lists !! n).
Proof.
  rewrite elem_of_sorted, list_elem_of_fmap. split.
  - intros ([m l] & -> & H%elem_of_map_to_list). by exists l.
  - intros [l Hl]. exists (n, l). split; [done|]. by apply elem_of_map_to_list.
Qed.















(** ** Compiling an extension out *)






(** ** The switches of a program *)



Lemma switch_cases_labels dict_of_lists :
  (switch_cases dict_of_lists).*1 = sorted nat_le (map_to_list dict_of_lists).*1.
Proof.
  unfold switch_cases. generalize (sorted nat_le (map_to_list dict_of_lists).*1).
  intros l. induction l as [|n l IH]; simpl; [done|]. by f_equal.
Qed.



(** ** Literals that denote what they show *)










(** ** What a matcher computes, from its text *)



(** ** The sections of a matcher body *)

#[local] Instance name_le_total : Total name_le.
Proof. intros a b. unfold name_le, str_le. apply (total String.le). Qed.

Lemma path_availability_snoc start path a :
  path_availability start (path ++ [a])
  = intersection (path_availability start path) (availability a).
Proof. unfold path_availability. by rewrite fold_left_app. Qed.

(** C3, amended: the body of a matcher of profile P is made of one section
    per chain of parent references that leaves P, the empty chain (P
    itself) first and then the chains through each parent, the parents in
    ascending order of their names; an ancestor reached along several
    chains has a section for each. The section of a chain is the one
    [get_verify_func_switch] emits for the dictionary and name of the
    profile the chain reaches under the availability of P intersected, one
    after the other, with the availability of each profile along the
    chain. That section is empty when the dictionary is empty; when it is
    not, it is the comment naming the profile followed by the guarded
    block of each feature set of that availability. *)
Theorem C3_body_by_chains profile dn :
  get_verify_func_body profile dn (availability profile) =
    flat_map (fun path =>
        get_verify_func_switch (getattr (path_end profile path) dn)
          (name (path_end profile path))
          (path_availability (availability profile) path))
      (ancestor_paths profile)
  ∧ (∀ path, path ∈ ancestor_paths profile ↔ parent_chain profile path)
  ∧ (∀ p, ancestor_paths p =
          [] :: match parent_profiles p with
                | None => []
                | Some pps =>
                    flat_map (fun pp => List.map (cons pp) (ancestor_paths pp))
                      (sorted name_le pps)
                end)
  ∧ (∀ pps, Sorted name_le (sorted name_le pps) ∧ sorted name_le pps ≡ₚ pps)
  ∧ (∀ start, path_availability start [] = start)
  ∧ (∀ start path a,
       path_availability start (path ++ [a])
       = intersection (path_availability start path) (availability a))
  ∧ (∀ dict_of_lists profile_name avail,
       get_verify_func_switch dict_of_lists profile_name avail =
       if decide (size dict_of_lists = 0) then []
       else (tab +:+ "// generated from: " +:+ profile_name) ::
            flat_map (feature_set_lines dict_of_lists)
              (sorted as_tuple_le (feature_sets avail))).
Proof.
  split; [apply get_verify_func_body_paths|].
  split; [apply ancestor_paths_chain|].
  split; [apply ancestor_paths_eq|].
  split; [|split; [done|split; [apply path_availability_snoc|done]]].
  intros pps. split; [apply sorted_Sorted, _|apply sorted_Permutation].
Qed.

(** ** The _ext function *)

(** C4: the text of the _ext function is the text of a program that, in
    any build and call, sets both outputs to true and returns, reading no
    field of the extension status, when the profile has a valid promoted
    version and the negotiated version is at least that version.
    Otherwise, for a profile that names an extension, out_supported is
    true exactly when the build has the extension and out_enabled is the
    field of the extension in the status, both false in a build without
    it; for a profile that names none, both are true. *)
Theorem C4_ext_func profile build c init :
  let st := run_ext_func build c (ext_func_ast profile) init in
  let promoted_met :=
    match valid_version (openxr_version_promoted profile) with
    | Some v => version_holds c v
    | None => false
    end in
  print_ext_func ("oxr_verify_" +:+ validation_func_name profile +:+ "_ext")
    (ext_func_ast profile) = ext_func_lines profile
  ∧ if promoted_met then
      xs_outs st = mkOuts true true ∧ xs_returned st = true ∧ xs_reads st = []
    else
      match extension_name profile with
      | Some ext =>
          out_supported (xs_outs st) = bool_decide (ext ∈ build)
          ∧ out_enabled (xs_outs st)
            = (bool_decide (ext ∈ build) && bool_decide (ext ∈ exts_status c))
      | None => xs_outs st = mkOuts true true
      end.
Proof.
  cbv zeta. split; [apply print_ext_func_ast|].
  unfold run_ext_func, ext_func_ast.
  destruct (valid_version (openxr_version_promoted profile)) as [v|],
    (extension_name profile) as [ext|];
    cbn [flat_map preprocess_x app xrun_seq xrun_stmt];
    try destruct (version_holds c v) eqn:Hv;
    try destruct (bool_decide (ext ∈ build)) eqn:Hb;
    cbn; rewrite ?Hv; cbn; auto.
Qed.

(** ** The switches of a matcher, from its text *)


(** ** The two generators write the same records *)

Lemma same_upto_refl {A} (m : gen A) : same_upto m m.
Proof.
  intros f. exists EmptyString. rewrite str_app_nil_r. by destruct (m f).
Qed.

Lemma same_upto_bind {A B} (m1 m2 : gen A) (k1 k2 : A → gen B) :
  same_upto m1 m2 → (∀ x, same_upto (k1 x) (k2 x)) →
  same_upto (m1 ≫= k1) (m2 ≫= k2).
Proof.
  intros Hm Hk f. destruct (Hm f) as (extra & H2 & Hok).
  unfold mbind, gen_bind, bind. rewrite H2.
  destruct (m1 f) as [f1 [x|e]]; simpl in *.
  - rewrite (Hok x eq_refl), str_app_nil_r. apply Hk.
  - exists extra. done.
Qed.

Lemma same_upto_for_each {A} (l : list A) (body1 body2 : A → gen unit) :
  (∀ x, same_upto (body1 x) (body2 x)) →
  same_upto (for_each l body1) (for_each l body2).
Proof.
  intros Hbody. induction l as [|x l IH]; simpl.
  - apply same_upto_refl.
  - apply same_upto_bind; [apply Hbody|]. intros _. apply IH.
Qed.

Lemma same_upto_component profile idx component :
  same_upto (oxr_component profile idx component)
            (ovrd_component profile idx component).
Proof.
  unfold oxr_component, ovrd_component.
  apply same_upto_bind; [apply same_upto_refl|]. intros _.
  apply same_upto_bind.
  2:{ intros _ f. exists EmptyString. rewrite str_app_nil_r. split; [|done].
      unfold wl, write. simpl. by rewrite !str_app_assoc. }
  destruct (truthy (monado_binding component)); [|apply same_upto_refl].
  intros f.
  destruct (is_input component), (is_output component),
    (dpad_emulation component) as [emulation|];
    try destruct (emulation !! "activate") as [activate|];
    try destruct (find_component_in_list_by_name activate (components profile)
                    (subaction_path component) (identifier_json_path component))
      as [found|];
    cbv [mbind gen_bind bind mret gen_ret ret deref raise wl write join fst snd];
    first
      [ exists EmptyString; split; [|done];
        rewrite ?str_app_assoc, ?str_app_nil_r; reflexivity
      | eexists; split; [reflexivity|]; intros; discriminate ].
Qed.

(** The binding records and the dpad records of a profile, as each
    generator writes them. *)
Lemma same_upto_records profile :
  same_upto (oxr_records profile) (ovrd_records profile).
Proof.
  unfold oxr_records, ovrd_records.
  apply same_upto_bind.
  { apply same_upto_for_each. intros [idx component]. apply same_upto_component. }
  intros _. apply same_upto_bind.
  { intros f. exists EmptyString. rewrite str_app_nil_r. split; [|done].
    unfold wl, write. simpl. by rewrite !str_app_assoc. }
  intros _. apply same_upto_refl.
Qed.
(** C6: for every profile and whatever the file holds so far, the binding
    records and the dpad records the reduced generator writes are those
    the full generator writes. Both succeed or both stop on the same
    exception; when they succeed the files are equal; and when they stop,
    the text of the full generator is the text of the reduced one, which
    at most has started the record at which both stop. *)
Theorem C6_same_records profile f :
  snd (ovrd_records profile f) = snd (oxr_records profile f)
  ∧ (snd (oxr_records profile f) = Ok tt →
     ovrd_records profile f = oxr_records profile f)
  ∧ (∃ extra, fst (ovrd_records profile f) = fst (oxr_records profile f) +:+ extra).
Proof.
  destruct (same_upto_records profile f) as (extra & H & Hok). rewrite H.
  split; [done|]. split; [|by exists extra].
  intros Hr. rewrite (Hok tt Hr), str_app_nil_r. by destruct (oxr_records profile f).
Qed.

(** ** Runs that stop *)

Lemma bind_Ok_inv {A B} (m : gen A) (k : A → gen B) f f' y :
  (m ≫= k) f = (f', Ok y) → ∃ f1 x, m f = (f1, Ok x) ∧ k x f1 = (f', Ok y).
Proof.
  unfold mbind, gen_bind, bind. destruct (m f) as [f1 [x|e]]; [eauto|done].
Qed.

Lemma bind_Ok {A B} (m : gen A) (k : A → gen B) f f1 x :
  m f = (f1, Ok x) → (m ≫= k) f = k x f1.
Proof. unfold mbind, gen_bind, bind. by intros ->. Qed.

Lemma bind_Raise {A B} (m : gen A) (k : A → gen B) f f1 e :
  m f = (f1, Raise e) → (m ≫= k) f = (f1, Raise e).
Proof. unfold mbind, gen_bind, bind. by intros ->. Qed.

Lemma for_each_Ok_inv {A} (l : list A) (body : A → gen unit) f f' x :
  for_each l body f = (f', Ok tt) → x ∈ l → ∃ f1 f2, body x f1 = (f2, Ok tt).
Proof.
  revert f. induction l as [|y l IH]; intros f Hrun Hx; [by apply elem_of_nil in Hx|].
  simpl in Hrun. apply bind_Ok_inv in Hrun as (f1 & [] & Hy & Hl).
  apply elem_of_cons in Hx as [->|Hx]; eauto.
Qed.

Lemma for_each_app {A} (l1 l2 : list A) (body : A → gen unit) f :
  for_each (l1 ++ l2) body f = (for_each l1 body;; for_each l2 body) f.
Proof.
  revert f. induction l1 as [|x l1 IH]; intros f; simpl; [done|].
  unfold mbind, gen_bind, bind in *.
  destruct (body x f) as [f1 [[]|e]]; [|done]. apply IH.
Qed.

Lemma appends_ret {A} (x : A) : appends (mret x).
Proof. intros f. exists EmptyString. by rewrite str_app_nil_r. Qed.
Lemma appends_raise {A} e : appends (@raise A e).
Proof. intros f. exists EmptyString. by rewrite str_app_nil_r. Qed.
Lemma appends_deref {A} e (o : option A) : appends (deref e o).
Proof. destruct o; [apply appends_ret|apply appends_raise]. Qed.
Lemma appends_write s : appends (write s).
Proof. intros f. by exists s. Qed.
Lemma appends_wl lines : appends (wl lines).
Proof. apply appends_write. Qed.
Lemma appends_bind {A B} (m : gen A) (k : A → gen B) :
  appends m → (∀ x, appends (k x)) → appends (m ≫= k).
Proof.
  intros Hm Hk f. destruct (Hm f) as [s Hs].
  unfold mbind, gen_bind, bind. destruct (m f) as [f1 [x|e]]; simpl in *; [|eauto].
  destruct (Hk x f1) as [s' Hs']. exists (s +:+ s').
  by rewrite Hs', Hs, str_app_assoc.
Qed.
Lemma appends_for_each {A} (l : list A) (body : A → gen unit) :
  (∀ x, appends (body x)) → appends (for_each l body).
Proof.
  intros Hbody. induction l as [|x l IH]; simpl; [apply appends_ret|].
  apply appends_bind; [apply Hbody|done].
Qed.

Ltac appends :=
  repeat first
    [ apply appends_write | apply appends_wl | apply appends_ret
    | apply appends_raise | apply appends_deref
    | apply appends_for_each; intros ?
    | apply appends_bind; [|intros ?]
    | match goal with
      | |- appends (match ?x with _ => _ end) => destruct x
      | |- appends (let '(_, _) := ?x in _) => destruct x
      end ].

Lemma appends_oxr_component profile idx component :
  appends (oxr_component profile idx component).
Proof. unfold oxr_component. appends. Qed.

Lemma appends_oxr_records profile : appends (oxr_records profile).
Proof.
  unfold oxr_records, oxr_dpads, oxr_dpad. appends.
Qed.

Lemma appends_oxr_profile profile : appends (oxr_profile profile).
Proof.
  unfold oxr_profile, oxr_profile_head, oxr_profile_tail.
  apply appends_bind; [appends|]. intros _.
  apply appends_bind; [apply appends_oxr_records|]. intros _. appends.
Qed.

Lemma str_app_eq_nil (a b : string) : a +:+ b = EmptyString → b = EmptyString.
Proof. by destruct a. Qed.

Lemma oxr_preamble_written b f : ∃ s, oxr_preamble b f = (f +:+ s +:+ nl, Ok tt).
Proof. eexists. unfold oxr_preamble, wl, write. reflexivity. Qed.

Lemma written_after_preamble {A} b (m : gen A) f' r :
  appends m → (oxr_preamble b;; m) EmptyString = (f', r) → f' ≠ EmptyString.
Proof.
  intros Hm. destruct (oxr_preamble_written b EmptyString) as [s Hs].
  rewrite (bind_Ok _ _ _ _ _ Hs). intros Hrun.
  destruct (Hm (EmptyString +:+ s +:+ nl)) as [s' Hs']. rewrite Hrun in Hs'.
  simpl in Hs'. intros ->. symmetry in Hs'.
  change ((s +:+ nl) +:+ s' = EmptyString) in Hs'.
  rewrite str_app_assoc in Hs'. apply str_app_eq_nil in Hs'. discriminate.
Qed.
(** ** The activate component of a dpad emulation *)

Lemma component_matches_spec component activate found :
  component_matches activate (subaction_path component)
    (identifier_json_path component) found = true
  ↔ names_activate component activate found.
Proof.
  clear. unfold component_matches, names_activate.
  rewrite !andb_true_iff, !String.eqb_eq. tauto.
Qed.

Lemma find_component_Some profile component activate found :
  find_component_in_list_by_name activate (components profile)
    (subaction_path component) (identifier_json_path component) = Some found →
  found ∈ components profile ∧ names_activate component activate found.
Proof.
  clear. intros [Hin Hm]%find_some. split; [by apply list_elem_of_In|].
  by apply component_matches_spec.
Qed.

Lemma find_component_None profile component activate :
  find_component_in_list_by_name activate (components profile)
    (subaction_path component) (identifier_json_path component) = None →
  ∀ c, c ∈ components profile → ¬ names_activate component activate c.
Proof.
  clear. intros Hnone c Hc%list_elem_of_In Hm%component_matches_spec.
  by rewrite (find_none _ _ Hnone c Hc) in Hm.
Qed.

(** C7, amended: for a component that has a binding (a monado_binding that
    is present and not empty) and whose dpad emulation names an activate
    component, both generators look for a component of the same profile
    with that name and with the subaction path and identifier json path
    of the referring component. When the profile has one, the record gets
    the binding of such a component as its dpad_activate value; when it
    has none, the run stops on an exception and no value is written for
    dpad_activate. *)
Theorem C7_activate_resolution profile idx component f emulation activate :
  truthy (monado_binding component) = true →
  dpad_emulation component = Some emulation →
  emulation !! "activate" = Some activate →
  ((∀ c, c ∈ components profile → ¬ names_activate component activate c) →
     snd (oxr_component profile idx component f) = Raise AttributeError ∧
     snd (ovrd_component profile idx component f) = Raise AttributeError)
  ∧ ((∃ c, c ∈ components profile ∧ names_activate component activate c) →
     ∃ found,
       found ∈ components profile ∧ names_activate component activate found ∧
       let line :=
         tabs 4 +:+ ".dpad_activate = " +:+ str_opt (monado_binding found) +:+ "," in
       (∃ pre post,
          oxr_component profile idx component f = (pre +:+ line +:+ post, Ok tt)) ∧
       (∃ pre post,
          ovrd_component profile idx component f = (pre +:+ line +:+ post, Ok tt))).
Proof.
  clear. intros Htruthy Hemu Hact.
  destruct (find_component_in_list_by_name activate (components profile)
              (subaction_path component) (identifier_json_path component))
    as [found|] eqn:Hfind.
  - destruct (find_component_Some _ _ _ _ Hfind) as [Hin Hnames].
    split; [intros Hno; by destruct (Hno found Hin)|].
    intros _. exists found. split; [done|]. split; [done|]. cbv zeta.
    unfold oxr_component, ovrd_component. rewrite Htruthy, Hemu, Hact, Hfind.
    cbv [mbind gen_bind bind mret gen_ret ret deref raise wl write join fst snd].
    split.
    + eexists _, _. f_equal.
      match goal with
      | |- (?fh +:+ (?i +:+ nl +:+ ?d +:+ nl +:+ ?o) +:+ nl) +:+ ?c = _ =>
          transitivity ((fh +:+ i +:+ nl) +:+ d +:+ (nl +:+ o +:+ nl +:+ c));
            [by rewrite !str_app_assoc|reflexivity]
      end.
    + destruct (is_input component), (is_output component);
        eexists _, _; f_equal;
        match goal with
        | |- ((?fhi +:+ ?t +:+ ?a +:+ ?v +:+ ?comma +:+ nl) +:+ ?o) +:+ ?c = _ =>
            transitivity (fhi +:+ (t +:+ a +:+ v +:+ comma) +:+ (nl +:+ o +:+ c));
              [by rewrite !str_app_assoc|reflexivity]
        end.
  - split.
    + intros _. unfold oxr_component, ovrd_component.
      rewrite Htruthy, Hemu, Hact, Hfind.
      cbv [mbind gen_bind bind mret gen_ret ret deref raise wl write join fst snd].
      by destruct (is_input component).
    + intros (c & Hc & Hnames). by destruct (find_component_None _ _ _ Hfind c Hc).
Qed.

(** ** A run that stops leaves the file as it is *)

(** C9, amended: the output file is emptied when it is opened, before
    anything is generated, and a fatal error stops the run at the
    statement that raises it: nothing is written after it, and what was
    written before it stays in the file. When the profiles before one
    are written and that one stops on an exception, the run ends with
    that exception and the file holds the preamble with the verification
    functions, the templates of the profiles before, and the part of the
    template written before the exception. *)
Theorem C9_error_leaves_partial_file b ps1 p ps2 e f1 f2 :
  profiles b = ps1 ++ p :: ps2 →
  (oxr_preamble b;; for_each ps1 oxr_profile) EmptyString = (f1, Ok tt) →
  oxr_profile p f1 = (f2, Raise e) →
  generate_bindings_c b = (f2, Raise e)
  ∧ (∃ written, f2 = f1 +:+ written)
  ∧ f1 ≠ EmptyString.
Proof.
  intros Hps Hpre Hp. split; [|split].
  - unfold generate_bindings_c, generate_bindings_c_from. rewrite Hps.
    apply bind_Ok_inv in Hpre as (f0 & [] & Hpre0 & Hps1).
    rewrite (bind_Ok _ _ _ _ _ Hpre0).
    apply bind_Raise. rewrite for_each_app.
    rewrite (bind_Ok _ _ _ _ _ Hps1). simpl.
    by apply bind_Raise.
  - destruct (appends_oxr_profile p f1) as [s Hs]. rewrite Hp in Hs. eauto.
  - eapply written_after_preamble; [|done].
    apply appends_for_each. intros p'. apply appends_oxr_profile.
Qed.

(** ** The promoted version of a profile template *)

Lemma oxr_profile_tail_None profile f :
  openxr_version_promoted profile = None →
  oxr_profile_tail profile f = (f, Raise TypeError).
Proof. intros Hnone. unfold oxr_profile_tail. by rewrite Hnone. Qed.

Lemma oxr_profile_Ok_promoted profile f f' :
  oxr_profile profile f = (f', Ok tt) → is_Some (openxr_version_promoted profile).
Proof.
  unfold oxr_profile.
  intros (f1 & [] & _ & (f2 & [] & _ & Htail)%bind_Ok_inv)%bind_Ok_inv.
  destruct (openxr_version_promoted profile) eqn:Hp; [done|].
  by rewrite oxr_profile_tail_None in Htail.
Qed.

(** C10: the template of a profile reads the major and then the minor of
    the promoted version of the profile, whatever [is_valid_version] says
    of it. So the full generator succeeds only if every profile has a
    promoted version: with a profile that has none the run stops on an
    exception, at the latest when it reaches the promoted version of that
    profile (a TypeError raised once the head and the records of its
    template are written), and the file then holds what was written. *)
Theorem C10_promoted_version_required b :
  (snd (generate_bindings_c b) = Ok tt →
     ∀ p, p ∈ profiles b → is_Some (openxr_version_promoted p))
  ∧ (∀ p, p ∈ profiles b → openxr_version_promoted p = None →
       (∃ e, snd (generate_bindings_c b) = Raise e) ∧
       fst (generate_bindings_c b) ≠ EmptyString)
  ∧ (∀ p f f1 f2,
       openxr_version_promoted p = None →
       oxr_profile_head p f = (f1, Ok tt) → oxr_records p f1 = (f2, Ok tt) →
       oxr_profile p f = (f2, Raise TypeError)).
Proof.
  assert (Hsome : snd (generate_bindings_c b) = Ok tt →
     ∀ p, p ∈ profiles b → is_Some (openxr_version_promoted p)).
  { unfold generate_bindings_c.
    destruct (generate_bindings_c_from b EmptyString) as [f' r] eqn:Hrun.
    unfold generate_bindings_c_from in Hrun. simpl. intros -> p Hp.
    apply bind_Ok_inv in Hrun as (f0 & [] & _ & Hrun).
    apply bind_Ok_inv in Hrun as (f1 & [] & Hloop & _).
    destruct (for_each_Ok_inv _ _ _ _ p Hloop Hp) as (fa & fb & Hrunp).
    by eapply oxr_profile_Ok_promoted. }
  split; [done|]. split.
  - intros p Hp Hnone. split.
    + destruct (snd (generate_bindings_c b)) as [[]|e] eqn:Hr; [|eauto].
      destruct (Hsome eq_refl p Hp) as [v Hv]. congruence.
    + unfold generate_bindings_c.
      destruct (generate_bindings_c_from b EmptyString) as [f' r] eqn:Hrun.
      unfold generate_bindings_c_from in Hrun. simpl.
      eapply written_after_preamble; [|done].
      apply appends_bind; [apply appends_for_each; intros ?; apply appends_oxr_profile|].
      intros _. appends.
  - intros p f f1 f2 Hnone Hhead Hrec. unfold oxr_profile.
    rewrite (bind_Ok _ _ _ _ _ Hhead), (bind_Ok _ _ _ _ _ Hrec).
    by apply oxr_profile_tail_None.
Qed.

(** ** The order of what is emitted *)

#[local] Instance str_le_total : Total str_le.
Proof. unfold str_le. apply _. Qed.
#[local] Instance str_le_trans : Transitive str_le.
Proof. unfold str_le. apply _. Qed.
#[local] Instance str_le_antisym : AntiSymm (=) str_le.
Proof. unfold str_le. apply _. Qed.
#[local] Instance nat_le_total : Total nat_le.
Proof. unfold nat_le. apply _. Qed.
#[local] Instance nat_le_trans : Transitive nat_le.
Proof. unfold nat_le. apply _. Qed.
#[local] Instance name_le_trans : Transitive name_le.
Proof. intros a b c. unfold name_le. apply transitivity. Qed.

Lemma sorted_str_Permutation l1 l2 :
  l1 ≡ₚ l2 → sorted str_le l1 = sorted str_le l2.
Proof.
  apply sorted_Permutation_eq; try apply _.
  intros x y _ _. apply (anti_symm str_le).
Qed.

Lemma dict_keys_Permutation (d1 d2 : gmap nat (list string)) :
  (∀ n, option_Forall2 (≡ₚ) (d1 !! n) (d2 !! n)) →
  sorted nat_le (map_to_list d1).*1 = sorted nat_le (map_to_list d2).*1.
Proof.
  intros Hd. apply sorted_Permutation_eq; try apply _.
  { intros x y _ _. unfold nat_le. lia. }
  apply NoDup_Permutation; try apply NoDup_fst_map_to_list.
  intros n.
  rewrite <-(elem_of_sorted nat_le n (map_to_list d1).*1),
    <-(elem_of_sorted nat_le n (map_to_list d2).*1), !elem_of_dict_keys.
  specialize (Hd n). destruct Hd; [|done].
  split; intros _; eauto.
Qed.

Lemma get_verify_switch_body_Permutation (d1 d2 : gmap nat (list string)) tab_char :
  (∀ n, option_Forall2 (≡ₚ) (d1 !! n) (d2 !! n)) →
  get_verify_switch_body d1 tab_char = get_verify_switch_body d2 tab_char.
Proof.
  intros Hd. unfold get_verify_switch_body.
  rewrite (dict_keys_Permutation d1 d2 Hd). do 2 f_equal.
  apply flat_map_ext_Forall, Forall_forall. intros n _.
  assert (sorted str_le (default [] (d1 !! n)) = sorted str_le (default [] (d2 !! n)))
    as ->; [|done].
  apply sorted_str_Permutation. by destruct (Hd n).
Qed.

Lemma feature_set_lines_Permutation dict_of_lists exts1 exts2 version :
  exts1 ≡ₚ exts2 →
  feature_set_lines dict_of_lists (mkFeatureSet exts1 version)
  = feature_set_lines dict_of_lists (mkFeatureSet exts2 version).
Proof.
  intros Hperm. unfold feature_set_lines. simpl.
  rewrite (sorted_str_Permutation exts1 exts2 Hperm).
  destruct exts1 as [|e1 exts1], exts2 as [|e2 exts2]; try done.
  - by apply Permutation_nil_cons in Hperm.
  - symmetry in Hperm. by apply Permutation_nil_cons in Hperm.
Qed.

Section order.
Context `{!Total key_le, !Transitive key_le}.

#[local] Instance as_tuple_le_total : Total as_tuple_le.
Proof. intros a b. unfold as_tuple_le. apply total, _. Qed.
#[local] Instance as_tuple_le_trans : Transitive as_tuple_le.
Proof. intros a b c. unfold as_tuple_le. apply transitivity. Qed.

Lemma get_verify_func_switch_Permutation dict_of_lists profile_name av1 av2 :
  (∀ x y, x ∈ feature_sets av1 → y ∈ feature_sets av1 →
          as_tuple_le x y → as_tuple_le y x → x = y) →
  feature_sets av1 ≡ₚ feature_sets av2 →
  get_verify_func_switch dict_of_lists profile_name av1
  = get_verify_func_switch dict_of_lists profile_name av2.
Proof.
  intros Hanti Hperm. unfold get_verify_func_switch.
  by rewrite (sorted_Permutation_eq as_tuple_le _ _ Hanti Hperm).
Qed.

Lemma get_verify_func_body_parents_Permutation p1 p2 pps1 pps2 dn avail :
  name p1 = name p2 → getattr p1 dn = getattr p2 dn →
  parent_profiles p1 = Some pps1 → parent_profiles p2 = Some pps2 →
  (∀ x y, x ∈ pps1 → y ∈ pps1 → name x = name y → x = y) →
  pps1 ≡ₚ pps2 →
  get_verify_func_body p1 dn avail = get_verify_func_body p2 dn avail.
Proof.
  intros Hname Hdict Hp1 Hp2 Hdistinct Hperm.
  rewrite !get_verify_func_body_eq, Hname, Hdict, Hp1, Hp2.
  rewrite (sorted_Permutation_eq name_le pps1 pps2); [done| |done].
  intros x y Hx Hy Hxy Hyx. apply Hdistinct; [done..|].
  by apply (anti_symm str_le).
Qed.

(** C8: the generators are functions of the loaded bindings, and what
    they emit does not depend on the order in which an unordered
    collection hands out its elements. The cases of a switch come in
    ascending order of length and the entries of a case in the order of
    the strings; the blocks of a section come in the order of the
    tuples of their feature sets and the extensions of a guard in the
    order of their names; the parents are visited in the order of
    their names. So listing the entries of the buckets, the extensions
    of a feature set, the feature sets of an availability or the parents
    of a profile in another order leaves the emitted lines the same,
    as long as the tuples tell the feature sets apart and the names
    tell the parents apart. *)
Theorem C8_order_independent :
  (∀ dict_of_lists,
     Sorted nat_le (switch_cases dict_of_lists).*1 ∧
     Forall (fun case => Sorted str_le (snd case)) (switch_cases dict_of_lists) ∧
     ∀ tab_char,
       print_switch tab_char (switch_cases dict_of_lists)
       = get_verify_switch_body dict_of_lists tab_char)
  ∧ (∀ dict_of_lists profile_name avail,
       Sorted as_tuple_le (sorted as_tuple_le (feature_sets avail)) ∧
       get_verify_func_switch dict_of_lists profile_name avail =
       if decide (size dict_of_lists = 0) then []
       else (tab +:+ "// generated from: " +:+ profile_name) ::
            flat_map (feature_set_lines dict_of_lists)
              (sorted as_tuple_le (feature_sets avail)))
  ∧ (∀ d1 d2 tab_char,
       (∀ n, option_Forall2 (≡ₚ) (d1 !! n) (d2 !! n)) →
       get_verify_switch_body d1 tab_char = get_verify_switch_body d2 tab_char)
  ∧ (∀ dict_of_lists exts1 exts2 version,
       exts1 ≡ₚ exts2 →
       feature_set_lines dict_of_lists (mkFeatureSet exts1 version)
       = feature_set_lines dict_of_lists (mkFeatureSet exts2 version))
  ∧ (∀ dict_of_lists profile_name av1 av2,
       (∀ x y, x ∈ feature_sets av1 → y ∈ feature_sets av1 →
               as_tuple_le x y → as_tuple_le y x → x = y) →
       feature_sets av1 ≡ₚ feature_sets av2 →
       get_verify_func_switch dict_of_lists profile_name av1
       = get_verify_func_switch dict_of_lists profile_name av2)
  ∧ (∀ p1 p2 pps1 pps2 dn avail,
       name p1 = name p2 → getattr p1 dn = getattr p2 dn →
       parent_profiles p1 = Some pps1 → parent_profiles p2 = Some pps2 →
       (∀ x y, x ∈ pps1 → y ∈ pps1 → name x = name y → x = y) →
       pps1 ≡ₚ pps2 →
       get_verify_func_body p1 dn avail = get_verify_func_body p2 dn avail).
Proof.
  split; [|split; [|split; [|split; [|split]]]].
  - intros d. split; [|split].
    + rewrite switch_cases_labels. apply sorted_Sorted, _.
    + unfold switch_cases. apply Forall_forall.
      intros [n bucket] (m & [= -> ->] & _)%list_elem_of_fmap.
      apply sorted_Sorted, _.
    + intros t. apply print_switch_cases.
  - intros d n av. split; [apply sorted_Sorted, _|done].
  - apply get_verify_switch_body_Permutation.
  - apply feature_set_lines_Permutation.
  - apply get_verify_func_switch_Permutation.
  - apply get_verify_func_body_parents_Permutation.
Qed.
End order.

(** ** When the generators succeed *)

Lemma succeeds_bind {A B} (m : gen A) (k : A → gen B) f :
  succeeds (m ≫= k) f ↔ ∃ f1 x, m f = (f1, Ok x) ∧ succeeds (k x) f1.
Proof.
  unfold succeeds, mbind, gen_bind, bind. destruct (m f) as [f1 [x|e]]; simpl.
  - split; [eauto|]. by intros (? & ? & [= <- <-] & ?).
  - split; [by intros [? ?]|]. by intros (? & ? & ? & _).
Qed.

Lemma succeeds_unit (m : gen unit) f : succeeds m f ↔ snd (m f) = Ok tt.
Proof. unfold succeeds. split; [by intros [[] ?]|eauto]. Qed.

Lemma succeeds_iff_proper {A} (m : gen A) P Q :
  succeeds_iff m P → (P ↔ Q) → succeeds_iff m Q.
Proof. intros Hm HPQ f. by rewrite (Hm f). Qed.

Lemma succeeds_iff_bind {A B} (m : gen A) (k : A → gen B) P Q :
  succeeds_iff m P → (∀ x, succeeds_iff (k x) Q) → succeeds_iff (m ≫= k) (P ∧ Q).
Proof.
  intros Hm Hk f. rewrite succeeds_bind. split.
  - intros (f1 & x & Hrun & Hx). split; [|by apply (Hk x f1)].
    apply (Hm f). exists x. by rewrite Hrun.
  - intros [HP HQ]. apply (Hm f) in HP as [x Hx].
    destruct (m f) as [f1 r] eqn:Hrun. simpl in Hx. subst r.
    exists f1, x. split; [done|]. by apply (Hk x f1).
Qed.

Lemma succeeds_iff_ret {A} (x : A) : succeeds_iff (mret x) True.
Proof. intros f. split; [done|]. intros _. by exists x. Qed.

Lemma succeeds_iff_write s : succeeds_iff (write s) True.
Proof. intros f. split; [done|]. intros _. by exists tt. Qed.

Lemma succeeds_iff_wl lines : succeeds_iff (wl lines) True.
Proof. apply succeeds_iff_write. Qed.

Lemma succeeds_iff_deref {A} e (o : option A) : succeeds_iff (deref e o) (is_Some o).
Proof.
  intros f. destruct o as [x|]; simpl.
  - split; [by eexists|]. intros _. by exists x.
  - split; [by intros [? ?]|]. by intros [? ?].
Qed.

Lemma succeeds_iff_for_each {A} (l : list A) (body : A → gen unit) (P : A → Prop) :
  (∀ x, succeeds_iff (body x) (P x)) →
  succeeds_iff (for_each l body) (∀ x, x ∈ l → P x).
Proof.
  intros Hbody. induction l as [|y l IH]; simpl.
  - eapply succeeds_iff_proper; [apply succeeds_iff_ret|].
    split; [|done]. intros _ x Hx. by apply elem_of_nil in Hx.
  - eapply succeeds_iff_proper.
    { apply succeeds_iff_bind; [apply Hbody|]. intros _. apply IH. }
    split.
    + intros [Hy Hl] x [->|Hx]%elem_of_cons; auto.
    + intros Hall. split; [apply Hall; by left|]. intros x Hx. apply Hall. by right.
Qed.

Lemma succeeds_iff_True_bind {A B} (m : gen A) (k : A → gen B) Q :
  succeeds_iff m True → (∀ x, succeeds_iff (k x) Q) → succeeds_iff (m ≫= k) Q.
Proof.
  intros Hm Hk. eapply succeeds_iff_proper; [by apply succeeds_iff_bind|]. tauto.
Qed.

Lemma succeeds_iff_bind_True {A B} (m : gen A) (k : A → gen B) P :
  succeeds_iff m P → (∀ x, succeeds_iff (k x) True) → succeeds_iff (m ≫= k) P.
Proof.
  intros Hm Hk. eapply succeeds_iff_proper; [by apply succeeds_iff_bind|]. tauto.
Qed.

Lemma succeeds_iff_oxr_component profile idx component :
  succeeds_iff (oxr_component profile idx component) (activate_resolves profile component).
Proof.
  clear. unfold oxr_component.
  apply succeeds_iff_True_bind; [apply succeeds_iff_wl|]. intros _.
  apply succeeds_iff_bind_True; [|intros _; apply succeeds_iff_wl].
  unfold activate_resolves.
  destruct (truthy (monado_binding component)).
  2:{ eapply succeeds_iff_proper; [apply succeeds_iff_ret|]. split; [|done].
      intros _ ? ? ?. done. }
  destruct (dpad_emulation component) as [emulation|].
  2:{ eapply succeeds_iff_proper.
      { apply succeeds_iff_True_bind; [apply succeeds_iff_ret|].
        intros ?. apply succeeds_iff_wl. }
      split; [|done]. intros _ ? ? _ ?. done. }
  destruct (emulation !! "activate") as [activate|] eqn:Hact.
  2:{ eapply succeeds_iff_proper.
      { apply succeeds_iff_True_bind; [apply succeeds_iff_ret|].
        intros ?. apply succeeds_iff_wl. }
      split; [|done]. intros _ ? ? _ [= <-] ?. congruence. }
  eapply succeeds_iff_proper.
  { apply succeeds_iff_bind_True.
    - apply succeeds_iff_bind_True; [apply succeeds_iff_deref|].
      intros ?. apply succeeds_iff_ret.
    - intros ?. apply succeeds_iff_wl. }
  split.
  - intros [found Hfind] em act _ [= <-] Hact'.
    assert (act = activate) as -> by congruence.
    exists found. by apply find_component_Some.
  - intros Hres. destruct (Hres emulation activate eq_refl eq_refl Hact)
      as (found & Hin & Hnames).
    destruct (find_component_in_list_by_name activate (components profile)
                (subaction_path component) (identifier_json_path component))
      as [found'|] eqn:Hfind; [done|].
    by destruct (find_component_None _ _ _ Hfind found Hin).
Qed.

Lemma succeeds_iff_ovrd_component profile idx component :
  succeeds_iff (ovrd_component profile idx component) (activate_resolves profile component).
Proof.
  intros f. rewrite <-(succeeds_iff_oxr_component profile idx component f).
  unfold succeeds.
  destruct (same_upto_component profile idx component f) as (extra & -> & _). done.
Qed.

Lemma succeeds_iff_oxr_dpads profile : succeeds_iff (oxr_dpads profile) True.
Proof.
  clear. unfold oxr_dpads.
  apply succeeds_iff_True_bind; [apply succeeds_iff_write|]. intros _.
  destruct (Nat.eqb _ 0); [apply succeeds_iff_write|].
  apply succeeds_iff_True_bind; [apply succeeds_iff_write|]. intros _.
  apply succeeds_iff_bind_True; [|intros _; apply succeeds_iff_write].
  eapply succeeds_iff_proper.
  { apply (succeeds_iff_for_each _ _ (fun identifier => is_Some (dpad identifier))).
    intros identifier. unfold oxr_dpad.
    do 3 (apply succeeds_iff_True_bind; [apply succeeds_iff_write|]; intros _).
    apply succeeds_iff_bind_True; [apply succeeds_iff_deref|]. intros d.
    apply succeeds_iff_True_bind.
    { eapply succeeds_iff_proper.
      - apply (succeeds_iff_for_each _ _ (fun _ => True)). intros ?.
        apply succeeds_iff_write.
      - done. }
    intros _.
    do 2 (apply succeeds_iff_True_bind; [apply succeeds_iff_write|]; intros _).
    apply succeeds_iff_True_bind; [|intros _; apply succeeds_iff_write].
    destruct (activate_component d); apply succeeds_iff_write. }
  split; [done|]. intros _ identifier [Hd _]%list_elem_of_filter. done.
Qed.

Lemma elem_of_enumerate {A} (l : list A) i x :
  (i, x) ∈ enumerate l ↔ l !! i = Some x.
Proof.
  unfold enumerate. rewrite elem_of_lookup_imap. split.
  - by intros (j & y & [= -> ->] & ?).
  - intros ?. by exists i, x.
Qed.

Lemma succeeds_iff_oxr_records profile :
  succeeds_iff (oxr_records profile)
    (∀ component, component ∈ components profile → activate_resolves profile component).
Proof.
  unfold oxr_records.
  apply succeeds_iff_bind_True.
  2:{ intros _. apply succeeds_iff_True_bind; [apply succeeds_iff_wl|].
      intros _. apply succeeds_iff_oxr_dpads. }
  eapply succeeds_iff_proper.
  { apply (succeeds_iff_for_each _ _ (fun ic => activate_resolves profile (snd ic))).
    intros [idx component]. apply succeeds_iff_oxr_component. }
  split.
  - intros Hall component (i & Hi)%list_elem_of_lookup.
    apply (Hall (i, component)). by apply elem_of_enumerate.
  - intros Hall [i component] Hi%elem_of_enumerate. simpl.
    apply Hall. by eapply list_elem_of_lookup_2.
Qed.

Lemma succeeds_iff_ovrd_records profile :
  succeeds_iff (ovrd_records profile)
    (∀ component, component ∈ components profile → activate_resolves profile component).
Proof.
  intros f. rewrite <-(succeeds_iff_oxr_records profile f). unfold succeeds.
  destruct (same_upto_records profile f) as (extra & -> & _). done.
Qed.

(** *** Splitting the name of a profile *)

Lemma split_slash_go_app cur a b :
  split_slash_go cur (a +:+ "/" +:+ b) = split_slash_go cur a ++ split_slash b.
Proof.
  revert cur. induction a as [|c a IH]; intros cur; [done|].
  change (String c a +:+ "/" +:+ b) with (String c (a +:+ "/" +:+ b)). simpl.
  destruct (Ascii.eqb c _); simpl; by rewrite IH.
Qed.

Lemma split_slash_app a b :
  split_slash (a +:+ "/" +:+ b) = split_slash a ++ split_slash b.
Proof. apply split_slash_go_app. Qed.

Lemma split_slash_go_no_slash cur s :
  contains_slash s = false → split_slash_go cur s = [String.rev_app cur s].
Proof.
  revert cur. induction s as [|c s IH]; intros cur; simpl; [done|].
  destruct (Ascii.eqb c _); simpl; [done|]. intros Hs. by rewrite IH.
Qed.

Lemma split_slash_no_slash s : contains_slash s = false → split_slash s = [s].
Proof. apply split_slash_go_no_slash. Qed.

Lemma contains_slash_true s : contains_slash s = true ↔ has_slash s.
Proof.
  split.
  - induction s as [|c s IH]; simpl; [done|].
    destruct (Ascii.eqb_spec c (Ascii.ascii_of_nat 47)) as [->|Hc]; simpl.
    + intros _. by exists EmptyString, s.
    + intros (pre & post & ->)%IH. by exists (String c pre), post.
  - intros (pre & post & ->). induction pre as [|c pre IH]; [done|].
    change (String c pre +:+ "/" +:+ post) with (String c (pre +:+ "/" +:+ post)).
    simpl. rewrite IH. apply orb_true_r.
Qed.

Lemma split_slash_length s : 0 < length (split_slash_go EmptyString s).
Proof.
  generalize EmptyString. induction s as [|c s IH]; intros cur; simpl; [lia|].
  destruct (Ascii.eqb c _); simpl; [lia|apply IH].
Qed.

Lemma index_m2_app {A} (l1 l2 : list A) :
  0 < length l1 → 0 < length l2 → is_Some (index_m2 (l1 ++ l2)).
Proof.
  unfold index_m2. rewrite reverse_app. intros H1 H2.
  destruct (reverse l2) as [|x2 r2] eqn:Hr2.
  { apply (f_equal length) in Hr2. rewrite length_reverse in Hr2. simpl in *. lia. }
  destruct r2 as [|y2 r2]; simpl; [|by eexists].
  destruct (reverse l1) as [|x1 r1] eqn:Hr1; [|by eexists].
  apply (f_equal length) in Hr1. rewrite length_reverse in Hr1. simpl in *. lia.
Qed.

(** The vendor segment of a name exists exactly when the name has a slash. *)
Lemma index_m2_split_slash s : is_Some (index_m2 (split_slash s)) ↔ has_slash s.
Proof.
  rewrite <-contains_slash_true. destruct (contains_slash s) eqn:Hs.
  - split; [done|]. intros _.
    apply contains_slash_true in Hs as (pre & post & ->).
    rewrite split_slash_app. apply index_m2_app; apply split_slash_length.
  - rewrite split_slash_no_slash by done. split; [by intros [? ?]|done].
Qed.

Lemma index_m1_split_slash s : is_Some (index_m1 (split_slash s)).
Proof.
  unfold index_m1. pose proof (split_slash_length s) as Hlen.
  unfold split_slash. destruct (split_slash_go EmptyString s) as [|x l] eqn:Hl.
  { simpl in Hlen. lia. }
  rewrite <-(reverse_involutive (x :: l)).
  destruct (reverse (x :: l)) as [|y r] eqn:Hr.
  { apply (f_equal length) in Hr. rewrite length_reverse in Hr. simpl in Hr. lia. }
  rewrite reverse_cons, last_snoc. by eexists.
Qed.

Lemma succeeds_iff_oxr_profile_head profile :
  succeeds_iff (oxr_profile_head profile) (has_slash (name profile)).
Proof.
  clear. unfold oxr_profile_head.
  eapply succeeds_iff_proper.
  { apply succeeds_iff_bind; [apply succeeds_iff_deref|]. intros hw_name.
    apply succeeds_iff_bind_True; [apply succeeds_iff_deref|]. intros vendor_name.
    apply succeeds_iff_wl. }
  rewrite index_m2_split_slash. pose proof (index_m1_split_slash (name profile)). tauto.
Qed.

Lemma succeeds_iff_ovrd_profile_head profile :
  succeeds_iff (ovrd_profile_head profile) (has_slash (name profile)).
Proof.
  clear. unfold ovrd_profile_head.
  eapply succeeds_iff_proper.
  { apply succeeds_iff_bind; [apply succeeds_iff_deref|]. intros hw_name.
    apply succeeds_iff_bind_True; [apply succeeds_iff_deref|]. intros vendor_name.
    apply succeeds_iff_wl. }
  rewrite index_m2_split_slash. pose proof (index_m1_split_slash (name profile)). tauto.
Qed.

Lemma succeeds_iff_oxr_profile_tail profile :
  succeeds_iff (oxr_profile_tail profile) (is_Some (openxr_version_promoted profile)).
Proof.
  clear. destruct (openxr_version_promoted profile) as [v|] eqn:Hp.
  2:{ intros f. rewrite succeeds_unit, oxr_profile_tail_None by done.
      split; [done|by intros [? ?]]. }
  unfold oxr_profile_tail. rewrite Hp.
  apply (succeeds_iff_proper _ True); [|split; [intros _; by eexists|done]].
  apply succeeds_iff_True_bind; [apply succeeds_iff_ret|]. intros ?.
  apply succeeds_iff_True_bind; [apply succeeds_iff_write|]. intros _.
  apply succeeds_iff_True_bind; [apply succeeds_iff_ret|]. intros ?.
  apply succeeds_iff_True_bind; [apply succeeds_iff_write|]. intros _.
  apply succeeds_iff_True_bind.
  { eapply succeeds_iff_proper.
    - apply (succeeds_iff_for_each _ _ (fun _ => True)). intros ?.
      apply succeeds_iff_write.
    - done. }
  intros _.
  apply succeeds_iff_True_bind; [apply succeeds_iff_write|]. intros _.
  apply succeeds_iff_True_bind; [|intros _; apply succeeds_iff_write].
  destruct (extension_name profile); apply succeeds_iff_write.
Qed.

(** What a profile needs for its template to be written. *)
Lemma succeeds_iff_oxr_profile profile :
  succeeds_iff (oxr_profile profile)
    (has_slash (name profile) ∧
     (∀ component, component ∈ components profile → activate_resolves profile component) ∧
     is_Some (openxr_version_promoted profile)).
Proof.
  unfold oxr_profile.
  apply succeeds_iff_bind; [apply succeeds_iff_oxr_profile_head|]. intros _.
  apply succeeds_iff_bind; [apply succeeds_iff_oxr_records|]. intros _.
  apply succeeds_iff_oxr_profile_tail.
Qed.

Lemma succeeds_iff_ovrd_profile profile :
  succeeds_iff (ovrd_profile profile)
    (has_slash (name profile) ∧
     (∀ component, component ∈ components profile → activate_resolves profile component)).
Proof.
  unfold ovrd_profile.
  apply succeeds_iff_bind; [apply succeeds_iff_ovrd_profile_head|]. intros _.
  apply succeeds_iff_bind_True; [apply succeeds_iff_ovrd_records|]. intros _.
  apply succeeds_iff_write.
Qed.

Lemma succeeds_iff_generate_bindings_c_from b :
  succeeds_iff (generate_bindings_c_from b)
    (∀ p, p ∈ profiles b →
       has_slash (name p) ∧
       (∀ component, component ∈ components p → activate_resolves p component) ∧
       is_Some (openxr_version_promoted p)).
Proof.
  unfold generate_bindings_c_from, oxr_preamble.
  apply succeeds_iff_True_bind; [apply succeeds_iff_wl|]. intros _.
  apply succeeds_iff_bind_True.
  { apply (succeeds_iff_for_each _ _ (fun p => _)). apply succeeds_iff_oxr_profile. }
  intros _. apply succeeds_iff_True_bind; [apply succeeds_iff_write|].
  intros _. apply succeeds_iff_write.
Qed.

Lemma succeeds_iff_ovrd_generate_bindings_c_from b :
  succeeds_iff (ovrd_generate_bindings_c_from b)
    (∀ p, p ∈ profiles b →
       has_slash (name p) ∧
       (∀ component, component ∈ components p → activate_resolves p component)).
Proof.
  unfold ovrd_generate_bindings_c_from.
  apply succeeds_iff_True_bind; [apply succeeds_iff_wl|]. intros _.
  apply succeeds_iff_bind_True.
  { apply (succeeds_iff_for_each _ _ (fun p => _)). apply succeeds_iff_ovrd_profile. }
  intros _. apply succeeds_iff_True_bind; [apply succeeds_iff_write|].
  intros _. apply succeeds_iff_write.
Qed.

(** X1: the full generator runs to its end exactly when every profile has a
    name with a slash in it (the vendor segment is the one before the
    last), a promoted version, and, for each component that has a binding
    and whose dpad emulation names an activate component, a component of
    that name with the same subaction path and identifier json path. *)
Theorem generate_bindings_c_succeeds_iff b :
  snd (generate_bindings_c b) = Ok tt ↔
  ∀ p, p ∈ profiles b →
    has_slash (name p) ∧
    (∀ component, component ∈ components p → activate_resolves p component) ∧
    is_Some (openxr_version_promoted p).
Proof.
  unfold generate_bindings_c. rewrite <-succeeds_unit.
  apply succeeds_iff_generate_bindings_c_from.
Qed.

(** X2: the reduced generator runs to its end exactly when every profile
    has a name with a slash in it and every activate reference of a bound
    component resolves; the promoted version plays no part. *)
Theorem ovrd_generate_bindings_c_succeeds_iff b :
  snd (ovrd_generate_bindings_c b) = Ok tt ↔
  ∀ p, p ∈ profiles b →
    has_slash (name p) ∧
    (∀ component, component ∈ components p → activate_resolves p component).
Proof.
  unfold ovrd_generate_bindings_c. rewrite <-succeeds_unit.
  apply succeeds_iff_ovrd_generate_bindings_c_from.
Qed.

(** X3: bindings the full generator accepts, the reduced generator accepts
    too. *)
Theorem full_success_implies_reduced_success b :
  snd (generate_bindings_c b) = Ok tt → snd (ovrd_generate_bindings_c b) = Ok tt.
Proof.
  unfold generate_bindings_c, ovrd_generate_bindings_c. rewrite <-!succeeds_unit.
  rewrite (succeeds_iff_generate_bindings_c_from b EmptyString),
    (succeeds_iff_ovrd_generate_bindings_c_from b EmptyString).
  intros Hall p Hp. destruct (Hall p Hp) as (? & ? & _). done.
Qed.

(** *** The names derived from the name of a profile *)

Lemma index_snoc2 {A} (l : list A) (x y : A) :
  index_m1 (l ++ [x; y]) = Some y ∧ index_m2 (l ++ [x; y]) = Some x.
Proof.
  unfold index_m1, index_m2. split.
  - change (l ++ [x; y]) with (l ++ [x] ++ [y]). by rewrite app_assoc, last_snoc.
  - by rewrite reverse_app.
Qed.

(** X4: for a profile named [pre/vendor/hw], with no slash in [vendor] and
    [hw], both generators derive the file name of the SteamVR input profile
    and the controller type from these two segments, whatever comes before
    them. *)
Theorem profile_head_names profile pre vendor hw f :
  name profile = pre +:+ "/" +:+ vendor +:+ "/" +:+ hw →
  contains_slash vendor = false → contains_slash hw = false →
  oxr_profile_head profile f =
    wl [ tab +:+ "{ // profile_template";
         tabs 2 +:+ ".name = " +:+ monado_device_enum profile +:+ ",";
         tabs 2 +:+ ".path = " +:+ dq +:+ name profile +:+ dq +:+ ",";
         tabs 2 +:+ ".localized_name = " +:+ dq +:+ localized_name profile +:+ dq +:+ ",";
         tabs 2 +:+ ".steamvr_input_profile_path = " +:+ dq
           +:+ (vendor +:+ "_" +:+ hw +:+ "_profile.json") +:+ dq +:+ ",";
         tabs 2 +:+ ".steamvr_controller_type = " +:+ dq
           +:+ ("monado_" +:+ vendor +:+ "_" +:+ hw) +:+ dq +:+ ",";
         tabs 2 +:+ ".binding_count = " +:+ pretty (length (components profile)) +:+ ",";
         tabs 2 +:+ ".bindings = (struct binding_template[]){ // array of binding_template" ]
      f
  ∧ ovrd_profile_head profile f = oxr_profile_head profile f.
Proof.
  clear. intros Hname Hvendor Hhw. split; [|reflexivity].
  unfold oxr_profile_head. rewrite Hname, !split_slash_app.
  rewrite (split_slash_no_slash vendor), (split_slash_no_slash hw) by done.
  change ([vendor] ++ [hw]) with [vendor; hw].
  destruct (index_snoc2 (split_slash pre) vendor hw) as [-> ->]. reflexivity.
Qed.

(** X5: a profile whose name has no slash stops both generators on an
    IndexError when they reach its template, and nothing of the template is
    written. *)
Theorem profile_without_slash_raises profile f :
  contains_slash (name profile) = false →
  oxr_profile profile f = (f, Raise IndexError)
  ∧ ovrd_profile profile f = (f, Raise IndexError).
Proof.
  clear. intros Hs.
  unfold oxr_profile, ovrd_profile, oxr_profile_head, ovrd_profile_head.
  rewrite (split_slash_no_slash _ Hs). done.
Qed.

(** ** What the matchers accept *)







(** ** The version guard *)

Lemma lor_shiftl_add a b n :
  (0 ≤ n → 0 ≤ b < 2 ^ n → Z.lor (Z.shiftl a n) b = a * 2 ^ n + b)%Z.
Proof.
  clear. intros Hn Hb.
  rewrite <-Z.shiftl_mul_pow2 by done.
  rewrite <-Z.lxor_lor, <-Z.add_nocarry_lxor; try done.
  all: apply Z.bits_inj'; intros i Hi; rewrite Z.land_spec, Z.bits_0.
  all: destruct (decide (i < n)%Z); [rewrite Z.shiftl_spec_low by lia; done|].
  all: destruct (decide (b = 0%Z)) as [->|]; [rewrite Z.bits_0, andb_false_r; done|].
  all: rewrite (Z.bits_above_log2 b i), andb_false_r; [done|lia|].
  all: apply Z.lt_le_trans with n; [apply Z.log2_lt_pow2; lia|lia].
Qed.

Lemma XR_MAKE_VERSION_value M m p :
  (XR_MAKE_VERSION M m p
   = (M mod 65536) * 2 ^ 48 + (m mod 65536) * 2 ^ 32 + p mod 2 ^ 32)%Z.
Proof.
  clear. unfold XR_MAKE_VERSION.
  change 65535%Z with (Z.ones 16). change 4294967295%Z with (Z.ones 32).
  rewrite !Z.land_ones by lia.
  change (2 ^ 16)%Z with 65536%Z.
  pose proof (Z.mod_pos_bound M 65536 ltac:(lia)).
  pose proof (Z.mod_pos_bound m 65536 ltac:(lia)).
  pose proof (Z.mod_pos_bound p (2^32) ltac:(lia)).
  replace (Z.shiftl (M mod 65536) 48) with (Z.shiftl (Z.shiftl (M mod 65536) 16) 32)
    by (rewrite Z.shiftl_shiftl by lia; done).
  rewrite <-Z.shiftl_lor.
  rewrite (lor_shiftl_add _ (p mod 2 ^ 32) 32) by lia.
  rewrite (lor_shiftl_add _ (m mod 65536) 16) by lia.
  lia.
Qed.

(** X9: against a negotiated version [XR_MAKE_VERSION a b p] with [a] and
    [b] below 65536, the guard of a version holds exactly when its major
    and minor numbers, each taken modulo 65536, are at most [(a, b)] in
    the lexicographic order; the patch number [p] plays no part. *)
Theorem version_guard_lexicographic v c a b p :
  (0 ≤ a < 65536)%Z → (0 ≤ b < 65536)%Z →
  openxr_version c = XR_MAKE_VERSION a b p →
  version_holds c v = true ↔
  (Z.of_N (major v mod 65536) < a
   ∨ (Z.of_N (major v mod 65536) = a ∧ Z.of_N (minor v mod 65536) ≤ b))%Z.
Proof.
  clear. intros Ha Hb Hc. unfold version_holds. rewrite Hc, !XR_MAKE_VERSION_value.
  rewrite Z.leb_le, !N2Z.inj_mod. change (Z.of_N 65536) with 65536%Z.
  pose proof (Z.mod_pos_bound p (2^32) ltac:(lia)).
  pose proof (Z.mod_pos_bound (Z.of_N (major v)) 65536 ltac:(lia)).
  pose proof (Z.mod_pos_bound (Z.of_N (minor v)) 65536 ltac:(lia)).
  rewrite (Z.mod_small a), (Z.mod_small b) by lia.
  change (0 mod 2 ^ 32)%Z with 0%Z.
  change (2 ^ 48)%Z with 281474976710656%Z in *.
  change (2 ^ 32)%Z with 4294967296%Z in *.
  lia.
Qed.

(** ** More on the _ext function *)

(** X10: what the _ext function leaves in its two outputs does not depend
    on what they held; it never reports a profile enabled that it does not
    report supported; and the only field of the extension status it reads
    is the one of the extension of the profile, in a build that has it. *)
Theorem ext_func_outputs profile build c init init' :
  let st := run_ext_func build c (ext_func_ast profile) init in
  xs_outs st = xs_outs (run_ext_func build c (ext_func_ast profile) init')
  ∧ (out_enabled (xs_outs st) = true → out_supported (xs_outs st) = true)
  ∧ (∀ ext, ext ∈ xs_reads st → extension_name profile = Some ext ∧ ext ∈ build).
Proof.
  cbv zeta. unfold run_ext_func, ext_func_ast.
  destruct (valid_version (openxr_version_promoted profile)) as [v|],
    (extension_name profile) as [ext|];
    cbn [flat_map preprocess_x app xrun_seq xrun_stmt];
    try destruct (version_holds c v) eqn:Hv;
    try destruct (bool_decide (ext ∈ build)) eqn:Hb;
    cbn; rewrite ?Hv; cbn.
  all: split; [|split].
  all: try done.
  all: try (by destruct (bool_decide (ext ∈ exts_status c))).
  all: intros ext' Hin.
  all: try (by apply elem_of_nil in Hin).
  all: apply list_elem_of_singleton in Hin as ->.
  all: split; [done|by apply bool_decide_eq_true in Hb].
Qed.

(** ** The two scripts *)

Lemma endswith_spec s suffix : endswith s suffix = true ↔ ∃ pre, s = pre +:+ suffix.
Proof.
  clear. induction s as [|a s IH]; cbn [endswith].
  - rewrite orb_false_r, String.eqb_eq. split.
    + intros <-. by exists EmptyString.
    + intros [[|b pre] H]; [done|discriminate H].
  - rewrite orb_true_iff, String.eqb_eq, IH. split.
    + intros [<-|[pre ->]]; [by exists EmptyString|by exists (String a pre)].
    + intros [[|b pre] H]; [by left|].
      right. exists pre. by injection H.
Qed.

Lemma endswith_both s a b :
  endswith s a = true → endswith s b = true → endswith a b = true ∨ endswith b a = true.
Proof.
  clear. rewrite !endswith_spec. intros [p1 H1] [p2 H2]. subst s.
  revert p2 H2. induction p1 as [|x p1 IH]; intros p2 H2.
  - left. by exists p2.
  - destruct p2 as [|y p2].
    + right. exists (String x p1). exact (eq_sym H2).
    + injection H2 as _ H2. eauto.
Qed.

Lemma and_then_assoc p q t fs :
  and_then (and_then p q) t fs = and_then p (and_then q t) fs.
Proof. clear. unfold and_then. by destruct (p fs) as [fs' [e|]]. Qed.

Lemma and_then_ext p q q' fs :
  (∀ fs', q fs' = q' fs') → and_then p q fs = and_then p q' fs.
Proof. clear. intros H. unfold and_then. destruct (p fs) as [fs' [e|]]; [done|apply H]. Qed.

Lemma and_then_ok p q fs fs1 : p fs = (fs1, None) → and_then p q fs = q fs1.
Proof. clear. intros H. unfold and_then. by rewrite H. Qed.

Lemma and_then_fail p q fs fs1 e :
  p fs = (fs1, Some e) → and_then p q fs = (fs1, Some e).
Proof. clear. intros H. unfold and_then. by rewrite H. Qed.

Section dispatch_facts.
Context (c_suffix h_suffix text htext : string) (r : option failure).
Context (opens : string → bool).
Context (gc gh : string → script).
Context (Hgc : ∀ file fs,
  gc file fs = if opens file then (<[file := text]> fs, r) else (fs, Some OSError)).
Context (Hgh : ∀ file fs,
  gh file fs = if opens file then (<[file := htext]> fs, None) else (fs, Some OSError)).

Lemma dispatch_cons output outputs fs :
  dispatch c_suffix h_suffix gc gh (output :: outputs) fs
  = and_then
      (and_then (when (endswith output c_suffix) (gc output))
                (when (endswith output h_suffix) (gh output)))
      (dispatch c_suffix h_suffix gc gh outputs) fs.
Proof. reflexivity. Qed.

Lemma dispatch_app l1 l2 fs :
  dispatch c_suffix h_suffix gc gh (l1 ++ l2) fs
  = and_then (dispatch c_suffix h_suffix gc gh l1) (dispatch c_suffix h_suffix gc gh l2) fs.
Proof.
  revert fs. induction l1 as [|o l1 IH]; intros fs; [reflexivity|].
  simpl app. rewrite dispatch_cons.
  etrans; [apply and_then_ext, IH|]. symmetry.
  exact (and_then_assoc
           (and_then (when (endswith o c_suffix) (gc o)) (when (endswith o h_suffix) (gh o)))
           (dispatch c_suffix h_suffix gc gh l1) (dispatch c_suffix h_suffix gc gh l2) fs).
Qed.

(** What one turn of the loop does. *)
Lemma dispatch_turn output fs :
  and_then (when (endswith output c_suffix) (gc output))
           (when (endswith output h_suffix) (gh output)) fs
  = if endswith output c_suffix
    then if opens output
         then match r with
              | Some e => (<[output := text]> fs, Some e)
              | None =>
                  if endswith output h_suffix
                  then (<[output := htext]> (<[output := text]> fs), None)
                  else (<[output := text]> fs, None)
              end
         else (fs, Some OSError)
    else if endswith output h_suffix
         then if opens output then (<[output := htext]> fs, None) else (fs, Some OSError)
         else (fs, None).
Proof.
  unfold and_then, when, skip.
  destruct (endswith output c_suffix), (endswith output h_suffix),
    (opens output) eqn:Ho, r as [e|];
    repeat (rewrite ?Hgc, ?Hgh, ?Ho; cbv beta iota); done.
Qed.

Lemma dispatch_turn_success output fs :
  snd (and_then (when (endswith output c_suffix) (gc output))
                (when (endswith output h_suffix) (gh output)) fs) = None
  ↔ (endswith output c_suffix = true ∨ endswith output h_suffix = true →
     opens output = true)
    ∧ (r = None ∨ endswith output c_suffix = false).
Proof.
  rewrite dispatch_turn.
  destruct (endswith output c_suffix), (endswith output h_suffix),
    (opens output), r as [e|]; cbn [snd].
  all: split; [intros H; try discriminate H; split; auto; by intros [?|?]|].
  all: intros [Ho Hr]; try reflexivity; exfalso.
  all: try (by discriminate (Ho (or_introl eq_refl))).
  all: try (by discriminate (Ho (or_intror eq_refl))).
  all: destruct Hr as [Hr|Hr]; discriminate Hr.
Qed.

Lemma dispatch_success outputs fs :
  snd (dispatch c_suffix h_suffix gc gh outputs fs) = None
  ↔ (∀ output, output ∈ outputs →
       endswith output c_suffix = true ∨ endswith output h_suffix = true →
       opens output = true)
    ∧ (r = None ∨ ∀ output, output ∈ outputs → endswith output c_suffix = false).
Proof.
  revert fs. induction outputs as [|o outputs IH]; intros fs.
  - split; [|done]. intros _. split; [|right]; by intros ? ?%elem_of_nil.
  - rewrite dispatch_cons.
    pose proof (dispatch_turn_success o fs) as Hturn.
    destruct (and_then (when (endswith o c_suffix) (gc o))
                (when (endswith o h_suffix) (gh o)) fs) as [fs1 [e|]] eqn:Hone.
    + rewrite (and_then_fail _ _ _ _ _ Hone). cbn [snd] in *. split; [done|].
      intros [Hopen Hr]. apply Hturn. split.
      * apply Hopen. by left.
      * destruct Hr as [?|Hr]; [by left|]. right. apply Hr. by left.
    + rewrite (and_then_ok _ _ _ _ Hone), IH. cbn [snd] in Hturn.
      destruct (proj1 Hturn eq_refl) as [Hopen Hr]. split.
      * intros [Hopens Hrs]. split.
        -- intros output [->|?]%elem_of_cons; auto.
        -- destruct Hrs as [?|Hrs]; [by left|]. destruct Hr as [?|Hr]; [by left|].
           right. intros output [->|?]%elem_of_cons; auto.
      * intros [Hopens Hrs]. split.
        -- intros output ?. apply Hopens. by right.
        -- destruct Hrs as [?|Hrs]; [by left|]. right.
           intros output ?. apply Hrs. by right.
Qed.

Lemma dispatch_lookup outputs fs path :
  snd (dispatch c_suffix h_suffix gc gh outputs fs) = None →
  fst (dispatch c_suffix h_suffix gc gh outputs fs) !! path
  = if bool_decide (path ∈ outputs)
    then if endswith path h_suffix then Some htext
         else if endswith path c_suffix then Some text
         else fs !! path
    else fs !! path.
Proof.
  revert fs. induction outputs as [|o outputs IH]; intros fs.
  - intros _. by rewrite bool_decide_eq_false_2 by apply not_elem_of_nil.
  - rewrite dispatch_cons.
    destruct (and_then (when (endswith o c_suffix) (gc o))
                (when (endswith o h_suffix) (gh o)) fs) as [fs1 [e|]] eqn:Hone.
    { by rewrite (and_then_fail _ _ _ _ _ Hone). }
    rewrite (and_then_ok _ _ _ _ Hone). intros Hok. rewrite (IH fs1 Hok).
    assert (Hfs1 : fs1 !! path
                   = if decide (path = o)
                     then if endswith path h_suffix then Some htext
                          else if endswith path c_suffix then Some text
                          else fs !! path
                     else fs !! path).
    { revert Hone. rewrite dispatch_turn.
      destruct (endswith o c_suffix) eqn:Hc, (endswith o h_suffix) eqn:Hh,
        (opens o); try destruct r;
        intros Heq; simplify_eq;
        destruct (decide (path = o)) as [->|Hne];
        rewrite ?Hc, ?Hh, ?lookup_insert_eq, ?lookup_insert_ne by done; done. }
    destruct (decide (path ∈ outputs)) as [Hin|Hin].
    + rewrite !bool_decide_eq_true_2 by (done || by right).
      rewrite Hfs1. destruct (decide (path = o)); [|done].
      by destruct (endswith path h_suffix), (endswith path c_suffix).
    + rewrite (bool_decide_eq_false_2 _ Hin), Hfs1.
      destruct (decide (path = o)) as [->|Hne].
      * by rewrite bool_decide_eq_true_2 by left.
      * rewrite bool_decide_eq_false_2; [done|].
        by intros [?|?]%elem_of_cons.
Qed.

Lemma dispatch_frame outputs fs path :
  path ∉ outputs ∨ (endswith path c_suffix = false ∧ endswith path h_suffix = false) →
  fst (dispatch c_suffix h_suffix gc gh outputs fs) !! path = fs !! path.
Proof.
  revert fs. induction outputs as [|o outputs IH]; intros fs Hpath; [done|].
  rewrite dispatch_cons.
  assert (Hone : ∀ fs, fst (and_then (when (endswith o c_suffix) (gc o))
                              (when (endswith o h_suffix) (gh o)) fs) !! path
                       = fs !! path).
  { intros fs0. rewrite dispatch_turn.
    assert (path ≠ o ∨ (endswith o c_suffix = false ∧ endswith o h_suffix = false))
      as [Hne|[Hc Hh]].
    { destruct Hpath as [Hn|?]; [left; intros ->; apply Hn; by left|].
      destruct (decide (path = o)) as [->|]; auto. }
    - destruct (endswith o c_suffix), (endswith o h_suffix), (opens o);
        try destruct r; cbn [fst];
        rewrite ?lookup_insert_ne by done; done.
    - by rewrite Hc, Hh. }
  specialize (Hone fs).
  destruct (and_then (when (endswith o c_suffix) (gc o))
              (when (endswith o h_suffix) (gh o)) fs) as [fs1 [e|]] eqn:Hstep.
  { by rewrite (and_then_fail _ _ _ _ _ Hstep). }
  rewrite (and_then_ok _ _ _ _ Hstep).
  simpl in Hone. rewrite IH, Hone; [done|].
  destruct Hpath as [Hn|?]; [left; intros ?; apply Hn; by right|by right].
Qed.

Lemma dispatch_failure pre out post fs e :
  r = Some e →
  (∀ output, output ∈ pre → endswith output c_suffix = false) →
  (∀ output, output ∈ pre → endswith output h_suffix = true → opens output = true) →
  endswith out c_suffix = true →
  opens out = true →
  dispatch c_suffix h_suffix gc gh (pre ++ out :: post) fs
  = (<[out := text]> (fst (dispatch c_suffix h_suffix gc gh pre fs)), Some (e)).
Proof.
  intros Hr Hpre Hopens Hout Hopen. rewrite dispatch_app. unfold and_then at 1.
  assert (Hok : snd (dispatch c_suffix h_suffix gc gh pre fs) = None).
  { apply dispatch_success. split; [|by right].
    intros output Hin [Hc|Hh]; [|by auto]. by rewrite (Hpre _ Hin) in Hc. }
  destruct (dispatch _ _ _ _ pre fs) as [fs1 r1]. simpl in Hok. subst r1.
  rewrite dispatch_cons. etrans; [apply and_then_fail|reflexivity].
  rewrite dispatch_turn. by rewrite Hout, Hopen, Hr.
Qed.

(** The first output that cannot be opened stops the run with the OSError
    of [open], and is left as it was. *)
Lemma dispatch_closed pre out post fs :
  snd (dispatch c_suffix h_suffix gc gh pre fs) = None →
  endswith out c_suffix = true ∨ endswith out h_suffix = true →
  opens out = false →
  dispatch c_suffix h_suffix gc gh (pre ++ out :: post) fs
  = (fst (dispatch c_suffix h_suffix gc gh pre fs), Some OSError).
Proof.
  intros Hok Hout Hopen. rewrite dispatch_app. unfold and_then at 1.
  destruct (dispatch _ _ _ _ pre fs) as [fs1 r1]. simpl in Hok. subst r1.
  rewrite dispatch_cons. etrans; [apply and_then_fail|reflexivity].
  rewrite dispatch_turn, Hopen.
  destruct (endswith out c_suffix), (endswith out h_suffix); try done.
  by destruct Hout.
Qed.

Lemma dispatch_step output :
  ∃ (written : option string) (r1 : option failure), ∀ fs,
    and_then (when (endswith output c_suffix) (gc output))
             (when (endswith output h_suffix) (gh output)) fs
    = (match written with Some t => <[output := t]> fs | None => fs end, r1).
Proof.
  exists (if endswith output c_suffix
          then if opens output
               then match r with
                    | Some _ => Some text
                    | None => if endswith output h_suffix then Some htext else Some text
                    end
               else None
          else if endswith output h_suffix
               then if opens output then Some htext else None
               else None),
         (if endswith output c_suffix
          then if opens output then r else Some OSError
          else if endswith output h_suffix
               then if opens output then None else Some OSError
               else None).
  intros fs. rewrite dispatch_turn.
  destruct (endswith output c_suffix), (endswith output h_suffix), (opens output),
    r as [e|]; try done.
  by rewrite insert_insert_eq.
Qed.

(** Whether a run stops, and what it leaves in the files it writes, does
    not depend on what the files held. *)
Lemma dispatch_indep outputs fs fs' :
  snd (dispatch c_suffix h_suffix gc gh outputs fs)
  = snd (dispatch c_suffix h_suffix gc gh outputs fs')
  ∧ ∀ path,
      fst (dispatch c_suffix h_suffix gc gh outputs fs) !! path
      = fst (dispatch c_suffix h_suffix gc gh outputs fs') !! path
      ∨ (fst (dispatch c_suffix h_suffix gc gh outputs fs) !! path = fs !! path
         ∧ fst (dispatch c_suffix h_suffix gc gh outputs fs') !! path = fs' !! path).
Proof.
  revert fs fs'. induction outputs as [|o outputs IH]; intros fs fs'.
  { split; [done|]. intros path. by right. }
  rewrite !dispatch_cons.
  destruct (dispatch_step o) as (written & r1 & Hstep).
  assert (Hpath : ∀ path,
    match written with Some t => <[o := t]> fs | None => fs end !! path
    = match written with Some t => <[o := t]> fs' | None => fs' end !! path
    ∨ (match written with Some t => <[o := t]> fs | None => fs end !! path = fs !! path
       ∧ match written with Some t => <[o := t]> fs' | None => fs' end !! path
         = fs' !! path)).
  { intros path. destruct written as [t|]; [|by right].
    destruct (decide (path = o)) as [->|Hne].
    - left. by rewrite !lookup_insert_eq.
    - right. by rewrite !lookup_insert_ne. }
  destruct r1 as [e|].
  - rewrite (and_then_fail _ _ _ _ _ (Hstep fs)), (and_then_fail _ _ _ _ _ (Hstep fs')).
    split; [done|]. apply Hpath.
  - rewrite (and_then_ok _ _ _ _ (Hstep fs)), (and_then_ok _ _ _ _ (Hstep fs')).
    destruct (IH (match written with Some t => <[o := t]> fs | None => fs end)
                 (match written with Some t => <[o := t]> fs' | None => fs' end))
      as [Hr Hfiles].
    split; [done|]. intros path.
    destruct (Hfiles path) as [?|[-> ->]]; [by left|]. apply Hpath.
Qed.

Lemma dispatch_idempotent outputs fs :
  dispatch c_suffix h_suffix gc gh outputs
    (fst (dispatch c_suffix h_suffix gc gh outputs fs))
  = dispatch c_suffix h_suffix gc gh outputs fs.
Proof.
  destruct (dispatch_indep outputs
              (fst (dispatch c_suffix h_suffix gc gh outputs fs)) fs) as [Hr Hfiles].
  apply injective_projections; [|done].
  apply map_eq. intros path. destruct (Hfiles path) as [?|[? ?]]; congruence.
Qed.

Lemma dispatch_same_outputs outputs outputs' fs :
  (∀ output, output ∈ outputs ↔ output ∈ outputs') →
  snd (dispatch c_suffix h_suffix gc gh outputs fs) = None →
  dispatch c_suffix h_suffix gc gh outputs' fs
  = dispatch c_suffix h_suffix gc gh outputs fs.
Proof.
  intros Hsame Hok.
  assert (Hok' : snd (dispatch c_suffix h_suffix gc gh outputs' fs) = None).
  { apply dispatch_success. apply dispatch_success in Hok as [Hopens Hr]. split.
    - intros output ?. apply Hopens. by apply Hsame.
    - destruct Hr as [?|Hall]; [by left|].
      right. intros output ?. apply Hall. by apply Hsame. }
  apply injective_projections; [|congruence].
  apply map_eq. intros path. rewrite !dispatch_lookup by done.
  by rewrite (bool_decide_ext _ _ (Hsame path)).
Qed.

End dispatch_facts.

Lemma substitute_is_Some template mapping :
  is_Some (substitute template mapping)
  ↔ ∀ name, Placeholder name ∈ template → is_Some (mapping !! name).
Proof.
  clear. induction template as [|[text|name] template IH]; cbn [substitute].
  - split; [|by eauto]. by intros _ ? ?%elem_of_nil.
  - destruct (substitute template mapping) as [rest|]; cbn.
    + split; [|by eauto]. intros _ name [?|?]%elem_of_cons; [done|].
      by apply IH.
    + split; [by intros []|]. intros H. apply IH. intros name ?. apply H. by right.
  - destruct (mapping !! name) as [value|] eqn:Hname; cbn.
    + destruct (substitute template mapping) as [rest|]; cbn.
      * split; [|by eauto]. intros _ name' [[= ->]|?]%elem_of_cons; [by rewrite Hname|].
        by apply IH.
      * split; [by intros []|]. intros H. apply IH. intros name' ?. apply H. by right.
    + split; [by intros []|]. intros H. rewrite <-Hname. apply H. by left.
Qed.

Lemma substitute_H_TEMPLATE b :
  substitute H_TEMPLATE (h_mapping b) = Some (header_text b).
Proof.
  unfold header_text.
  destruct (substitute H_TEMPLATE (h_mapping b)) eqn:H; [done|].
  assert (is_Some (substitute H_TEMPLATE (h_mapping b))) as [? Hs]; [|congruence].
  apply substitute_is_Some. intros name. unfold H_TEMPLATE, h_mapping.
  intros Hin. repeat (apply elem_of_cons in Hin as [Hin|Hin]);
    try (by apply elem_of_nil in Hin); try discriminate Hin;
    injection Hin as <-;
    rewrite ?lookup_insert_eq, ?lookup_insert_ne by done; by eauto.
Qed.

Lemma substitute_ovrd_H_TEMPLATE b :
  substitute ovrd_H_TEMPLATE (ovrd_h_mapping b) = Some (ovrd_header_text b).
Proof.
  unfold ovrd_header_text.
  destruct (substitute ovrd_H_TEMPLATE (ovrd_h_mapping b)) eqn:H; [done|].
  assert (is_Some (substitute ovrd_H_TEMPLATE (ovrd_h_mapping b))) as [? Hs]; [|congruence].
  apply substitute_is_Some. intros name. unfold ovrd_H_TEMPLATE, ovrd_h_mapping.
  intros Hin. repeat (apply elem_of_cons in Hin as [Hin|Hin]);
    try (by apply elem_of_nil in Hin); try discriminate Hin;
    injection Hin as <-;
    rewrite ?lookup_insert_eq, ?lookup_insert_ne by done; by eauto.
Qed.

Lemma generate_bindings_h_eq file b fs :
  generate_bindings_h file b fs
  = if can_open file then (<[file := header_text b]> fs, None) else (fs, Some OSError).
Proof. unfold generate_bindings_h. by rewrite substitute_H_TEMPLATE. Qed.

Lemma ovrd_generate_bindings_h_eq file b fs :
  ovrd_generate_bindings_h file b fs
  = if can_open file then (<[file := ovrd_header_text b]> fs, None)
    else (fs, Some OSError).
Proof. unfold ovrd_generate_bindings_h. by rewrite substitute_ovrd_H_TEMPLATE. Qed.

Lemma generate_bindings_c_file_eq file b fs :
  generate_bindings_c_file file b fs
  = if can_open file
    then (<[file := fst (generate_bindings_c b)]> fs,
          failure_of (snd (generate_bindings_c b)))
    else (fs, Some OSError).
Proof.
  unfold generate_bindings_c_file. by destruct (generate_bindings_c b) as [text [[]|e]].
Qed.

Lemma ovrd_generate_bindings_c_file_eq file b fs :
  ovrd_generate_bindings_c_file file b fs
  = if can_open file
    then (<[file := fst (ovrd_generate_bindings_c b)]> fs,
          failure_of (snd (ovrd_generate_bindings_c b)))
    else (fs, Some OSError).
Proof.
  unfold ovrd_generate_bindings_c_file.
  by destruct (ovrd_generate_bindings_c b) as [text [[]|e]].
Qed.

Lemma failure_of_None r : failure_of r = None ↔ r = Ok tt.
Proof. clear. by destruct r as [[]|e]. Qed.

(** X11: [main] of oxr_bindings.py runs to its end exactly when every
    output that has the name of the implementation file or of the header
    can be opened for writing and, besides, [generate_bindings_c] runs to
    its end on the bindings or no output has the name of the
    implementation file: once its file is open, the header never stops
    it. *)
Theorem main_succeeds_iff outputs b fs :
  snd (main outputs b fs) = None
  ↔ (∀ output, output ∈ outputs →
       endswith output "oxr_generated_bindings.c" = true
       ∨ endswith output "oxr_generated_bindings.h" = true →
       can_open output = true)
    ∧ (snd (generate_bindings_c b) = Ok tt
       ∨ ∀ output, output ∈ outputs →
           endswith output "oxr_generated_bindings.c" = false).
Proof.
  rewrite <-failure_of_None.
  apply (dispatch_success "oxr_generated_bindings.c" "oxr_generated_bindings.h" _ _ _ _
           (λ output, generate_bindings_c_file output b)
           (λ output, generate_bindings_h output b)
           (λ file, generate_bindings_c_file_eq file b)
           (λ file, generate_bindings_h_eq file b)).
Qed.

(** X12: when [main] of oxr_bindings.py runs to its end, every output
    whose name ends in oxr_generated_bindings.h holds the header, every
    output whose name ends in oxr_generated_bindings.c holds what
    [generate_bindings_c] wrote, and every other file, an output or not,
    holds what it held. *)
Theorem main_files_on_success outputs b fs path :
  snd (main outputs b fs) = None →
  fst (main outputs b fs) !! path
  = if bool_decide (path ∈ outputs)
    then if endswith path "oxr_generated_bindings.h" then Some (header_text b)
         else if endswith path "oxr_generated_bindings.c"
              then Some (fst (generate_bindings_c b))
         else fs !! path
    else fs !! path.
Proof.
  apply (dispatch_lookup "oxr_generated_bindings.c" "oxr_generated_bindings.h" _ _ _ _
           (λ output, generate_bindings_c_file output b)
           (λ output, generate_bindings_h output b)
           (λ file, generate_bindings_c_file_eq file b)
           (λ file, generate_bindings_h_eq file b)).
Qed.

(** X13: when [generate_bindings_c] stops on an exception, [main] of
    oxr_bindings.py stops with it at the first output that has the name of
    the implementation file, provided that output and the headers among
    the outputs before it can be opened. That file holds what was written
    until then, the headers among the outputs before it are written, and
    nothing else is: the outputs after it, and its own header, are not
    reached. *)
Theorem main_stops_at_failure pre out post b fs partial e path :
  generate_bindings_c b = (partial, Raise e) →
  (∀ output, output ∈ pre → endswith output "oxr_generated_bindings.c" = false) →
  (∀ output, output ∈ pre → endswith output "oxr_generated_bindings.h" = true →
     can_open output = true) →
  endswith out "oxr_generated_bindings.c" = true →
  can_open out = true →
  snd (main (pre ++ out :: post) b fs) = Some (Generator e)
  ∧ fst (main (pre ++ out :: post) b fs) !! path
    = if decide (path = out) then Some partial
      else if bool_decide (path ∈ pre) && endswith path "oxr_generated_bindings.h"
           then Some (header_text b)
      else fs !! path.
Proof.
  intros Hgen Hpre Hopens Hout Hopen.
  pose proof (dispatch_failure "oxr_generated_bindings.c" "oxr_generated_bindings.h" _ _ _ _
           (λ output, generate_bindings_c_file output b)
           (λ output, generate_bindings_h output b)
           (λ file, generate_bindings_c_file_eq file b)
           (λ file, generate_bindings_h_eq file b) pre out post fs (Generator e)) as H.
  rewrite Hgen in H. specialize (H eq_refl Hpre Hopens Hout Hopen).
  change (main (pre ++ out :: post) b fs)
    with (dispatch "oxr_generated_bindings.c" "oxr_generated_bindings.h"
            (λ output, generate_bindings_c_file output b)
            (λ output, generate_bindings_h output b) (pre ++ out :: post) fs).
  rewrite H. split; [done|]. cbn [fst snd].
  destruct (decide (path = out)) as [->|Hne]; [by rewrite lookup_insert_eq|].
  rewrite lookup_insert_ne by done.
  rewrite (dispatch_lookup "oxr_generated_bindings.c" "oxr_generated_bindings.h" _ _ _ _
           (λ output, generate_bindings_c_file output b)
           (λ output, generate_bindings_h output b)
           (λ file, generate_bindings_c_file_eq file b)
           (λ file, generate_bindings_h_eq file b)).
  - destruct (decide (path ∈ pre)) as [Hin|Hin].
    + rewrite bool_decide_eq_true_2 by done. rewrite (Hpre _ Hin).
      by destruct (endswith path "oxr_generated_bindings.h").
    + by rewrite bool_decide_eq_false_2 by done.
  - apply (dispatch_success "oxr_generated_bindings.c" "oxr_generated_bindings.h" _ _ _ _
           (λ output, generate_bindings_c_file output b)
           (λ output, generate_bindings_h output b)
           (λ file, generate_bindings_c_file_eq file b)
           (λ file, generate_bindings_h_eq file b)). split; [|by right].
    intros output Hin [Hc|Hh]; [|by auto]. by rewrite (Hpre _ Hin) in Hc.
Qed.

(** X14: [main] of ovrd_bindings.py runs to its end exactly when every
    output that has the name of the implementation file or of the header
    can be opened for writing and, besides, [ovrd_generate_bindings_c] runs to
    its end on the bindings or no output has the name of the
    implementation file: once its file is open, the header never stops
    it. *)
Theorem ovrd_main_succeeds_iff outputs b fs :
  snd (ovrd_main outputs b fs) = None
  ↔ (∀ output, output ∈ outputs →
       endswith output "ovrd_generated_bindings.c" = true
       ∨ endswith output "ovrd_generated_bindings.h" = true →
       can_open output = true)
    ∧ (snd (ovrd_generate_bindings_c b) = Ok tt
       ∨ ∀ output, output ∈ outputs →
           endswith output "ovrd_generated_bindings.c" = false).
Proof.
  rewrite <-failure_of_None.
  apply (dispatch_success "ovrd_generated_bindings.c" "ovrd_generated_bindings.h" _ _ _ _
           (λ output, ovrd_generate_bindings_c_file output b)
           (λ output, ovrd_generate_bindings_h output b)
           (λ file, ovrd_generate_bindings_c_file_eq file b)
           (λ file, ovrd_generate_bindings_h_eq file b)).
Qed.

(** X15: when [main] of ovrd_bindings.py runs to its end, every output
    whose name ends in ovrd_generated_bindings.h holds the header, every
    output whose name ends in ovrd_generated_bindings.c holds what
    [ovrd_generate_bindings_c] wrote, and every other file holds what it
    held. *)
Theorem ovrd_main_files_on_success outputs b fs path :
  snd (ovrd_main outputs b fs) = None →
  fst (ovrd_main outputs b fs) !! path
  = if bool_decide (path ∈ outputs)
    then if endswith path "ovrd_generated_bindings.h" then Some (ovrd_header_text b)
         else if endswith path "ovrd_generated_bindings.c"
              then Some (fst (ovrd_generate_bindings_c b))
         else fs !! path
    else fs !! path.
Proof.
  apply (dispatch_lookup "ovrd_generated_bindings.c" "ovrd_generated_bindings.h" _ _ _ _
           (λ output, ovrd_generate_bindings_c_file output b)
           (λ output, ovrd_generate_bindings_h output b)
           (λ file, ovrd_generate_bindings_c_file_eq file b)
           (λ file, ovrd_generate_bindings_h_eq file b)).
Qed.

(** X16: when [ovrd_generate_bindings_c] stops on an exception, [main] of
    ovrd_bindings.py stops with it at the first output that has the name of
    the implementation file, provided that output and the headers among
    the outputs before it can be opened. That file holds what was written
    until then, the headers among the outputs before it are written, and
    nothing else is: the outputs after it, and its own header, are not
    reached. *)
Theorem ovrd_main_stops_at_failure pre out post b fs partial e path :
  ovrd_generate_bindings_c b = (partial, Raise e) →
  (∀ output, output ∈ pre → endswith output "ovrd_generated_bindings.c" = false) →
  (∀ output, output ∈ pre → endswith output "ovrd_generated_bindings.h" = true →
     can_open output = true) →
  endswith out "ovrd_generated_bindings.c" = true →
  can_open out = true →
  snd (ovrd_main (pre ++ out :: post) b fs) = Some (Generator e)
  ∧ fst (ovrd_main (pre ++ out :: post) b fs) !! path
    = if decide (path = out) then Some partial
      else if bool_decide (path ∈ pre) && endswith path "ovrd_generated_bindings.h"
           then Some (ovrd_header_text b)
      else fs !! path.
Proof.
  intros Hgen Hpre Hopens Hout Hopen.
  pose proof (dispatch_failure "ovrd_generated_bindings.c" "ovrd_generated_bindings.h" _ _ _ _
           (λ output, ovrd_generate_bindings_c_file output b)
           (λ output, ovrd_generate_bindings_h output b)
           (λ file, ovrd_generate_bindings_c_file_eq file b)
           (λ file, ovrd_generate_bindings_h_eq file b) pre out post fs (Generator e)) as H.
  rewrite Hgen in H. specialize (H eq_refl Hpre Hopens Hout Hopen).
  change (ovrd_main (pre ++ out :: post) b fs)
    with (dispatch "ovrd_generated_bindings.c" "ovrd_generated_bindings.h"
            (λ output, ovrd_generate_bindings_c_file output b)
            (λ output, ovrd_generate_bindings_h output b) (pre ++ out :: post) fs).
  rewrite H. split; [done|]. cbn [fst snd].
  destruct (decide (path = out)) as [->|Hne]; [by rewrite lookup_insert_eq|].
  rewrite lookup_insert_ne by done.
  rewrite (dispatch_lookup "ovrd_generated_bindings.c" "ovrd_generated_bindings.h" _ _ _ _
           (λ output, ovrd_generate_bindings_c_file output b)
           (λ output, ovrd_generate_bindings_h output b)
           (λ file, ovrd_generate_bindings_c_file_eq file b)
           (λ file, ovrd_generate_bindings_h_eq file b)).
  - destruct (decide (path ∈ pre)) as [Hin|Hin].
    + rewrite bool_decide_eq_true_2 by done. rewrite (Hpre _ Hin).
      by destruct (endswith path "ovrd_generated_bindings.h").
    + by rewrite bool_decide_eq_false_2 by done.
  - apply (dispatch_success "ovrd_generated_bindings.c" "ovrd_generated_bindings.h" _ _ _ _
           (λ output, ovrd_generate_bindings_c_file output b)
           (λ output, ovrd_generate_bindings_h output b)
           (λ file, ovrd_generate_bindings_c_file_eq file b)
           (λ file, ovrd_generate_bindings_h_eq file b)). split; [|by right].
    intros output Hin [Hc|Hh]; [|by auto]. by rewrite (Hpre _ Hin) in Hc.
Qed.

(** X17: neither script writes a file it was not given as an output, nor
    an output whose name ends in neither of its two suffixes, whether it
    runs to its end or stops: such outputs are passed over in silence. *)
Theorem scripts_write_only_their_outputs outputs b fs path :
  (path ∉ outputs
   ∨ (endswith path "oxr_generated_bindings.c" = false
      ∧ endswith path "oxr_generated_bindings.h" = false) →
   fst (main outputs b fs) !! path = fs !! path)
  ∧ (path ∉ outputs
     ∨ (endswith path "ovrd_generated_bindings.c" = false
        ∧ endswith path "ovrd_generated_bindings.h" = false) →
     fst (ovrd_main outputs b fs) !! path = fs !! path).
Proof.
  split.
  - apply (dispatch_frame "oxr_generated_bindings.c" "oxr_generated_bindings.h" _ _ _ _
           (λ output, generate_bindings_c_file output b)
           (λ output, generate_bindings_h output b)
           (λ file, generate_bindings_c_file_eq file b)
           (λ file, generate_bindings_h_eq file b)).
  - apply (dispatch_frame "ovrd_generated_bindings.c" "ovrd_generated_bindings.h" _ _ _ _
           (λ output, ovrd_generate_bindings_c_file output b)
           (λ output, ovrd_generate_bindings_h output b)
           (λ file, ovrd_generate_bindings_c_file_eq file b)
           (λ file, ovrd_generate_bindings_h_eq file b)).
Qed.

(** X18: running a script again on the files it left, with the same
    outputs and bindings, changes nothing: it ends as it did and leaves
    every file as it found it. *)
Theorem scripts_idempotent outputs b fs :
  main outputs b (fst (main outputs b fs)) = main outputs b fs
  ∧ ovrd_main outputs b (fst (ovrd_main outputs b fs)) = ovrd_main outputs b fs.
Proof.
  split.
  - apply (dispatch_idempotent "oxr_generated_bindings.c" "oxr_generated_bindings.h" _ _ _ _
             (λ output, generate_bindings_c_file output b)
             (λ output, generate_bindings_h output b)
             (λ file, generate_bindings_c_file_eq file b)
             (λ file, generate_bindings_h_eq file b)).
  - apply (dispatch_idempotent "ovrd_generated_bindings.c" "ovrd_generated_bindings.h" _ _ _ _
             (λ output, ovrd_generate_bindings_c_file output b)
             (λ output, ovrd_generate_bindings_h output b)
             (λ file, ovrd_generate_bindings_c_file_eq file b)
             (λ file, ovrd_generate_bindings_h_eq file b)).
Qed.

(** X19: when a script runs to its end, the order of its outputs and their
    repetitions do not matter: with other outputs of the same names it
    also runs to its end and leaves the same files. *)
Theorem scripts_outputs_as_a_set outputs outputs' b fs :
  (∀ output, output ∈ outputs ↔ output ∈ outputs') →
  (snd (main outputs b fs) = None → main outputs' b fs = main outputs b fs)
  ∧ (snd (ovrd_main outputs b fs) = None →
     ovrd_main outputs' b fs = ovrd_main outputs b fs).
Proof.
  intros Hsame. split.
  - apply (dispatch_same_outputs "oxr_generated_bindings.c" "oxr_generated_bindings.h" _ _ _ _
             (λ output, generate_bindings_c_file output b)
             (λ output, generate_bindings_h output b)
             (λ file, generate_bindings_c_file_eq file b)
             (λ file, generate_bindings_h_eq file b)); done.
  - apply (dispatch_same_outputs "ovrd_generated_bindings.c" "ovrd_generated_bindings.h" _ _ _ _
             (λ output, ovrd_generate_bindings_c_file output b)
             (λ output, ovrd_generate_bindings_h output b)
             (λ file, ovrd_generate_bindings_c_file_eq file b)
             (λ file, ovrd_generate_bindings_h_eq file b)); done.
Qed.

(** X20: the four names the two scripts look for exclude each other: an
    output is taken for at most one of implementation and header, of at
    most one script. *)
Theorem outputs_recognised_once output a b :
  a ∈ [ "oxr_generated_bindings.c"; "oxr_generated_bindings.h";
        "ovrd_generated_bindings.c"; "ovrd_generated_bindings.h" ] →
  b ∈ [ "oxr_generated_bindings.c"; "oxr_generated_bindings.h";
        "ovrd_generated_bindings.c"; "ovrd_generated_bindings.h" ] →
  a ≠ b →
  endswith output a = true → endswith output b = false.
Proof.
  clear. intros Ha Hb Hne Hoa.
  destruct (endswith output b) eqn:Hob; [exfalso|done].
  destruct (endswith_both _ _ _ Hoa Hob) as [H|H]; revert H Hne;
    repeat (apply elem_of_cons in Ha as [->|Ha]); try (by apply elem_of_nil in Ha);
    repeat (apply elem_of_cons in Hb as [->|Hb]); try (by apply elem_of_nil in Hb);
    vm_compute; congruence.
Qed.

Lemma verify_protos_by_names b b' :
  List.map validation_func_name (profiles b) = List.map validation_func_name (profiles b') →
  verify_protos b = verify_protos b'.
Proof.
  clear. unfold verify_protos.
  generalize (profiles b) (profiles b'). intros l. induction l as [|p l IH]; intros [|p' l'] H;
    try done. injection H as Hp Hl. cbn [flat_map]. rewrite Hp. f_equal. by apply IH.
Qed.

(** X21: the header of oxr_bindings.py depends on the bindings only
    through the validation function names of the profiles, in their
    order; the header of ovrd_bindings.py only through the number of
    profiles. *)
Theorem headers_depend_on_names_only file b b' fs :
  (List.map validation_func_name (profiles b)
   = List.map validation_func_name (profiles b') →
   generate_bindings_h file b fs = generate_bindings_h file b' fs)
  ∧ (length (profiles b) = length (profiles b') →
     ovrd_generate_bindings_h file b fs = ovrd_generate_bindings_h file b' fs).
Proof.
  split.
  - intros H.
    assert (Hlen : length (profiles b) = length (profiles b')).
    { by rewrite <-(length_map validation_func_name), H, length_map. }
    unfold generate_bindings_h, h_mapping.
    by rewrite (verify_protos_by_names _ _ H), Hlen.
  - intros Hlen. unfold ovrd_generate_bindings_h, ovrd_h_mapping. by rewrite Hlen.
Qed.

(** X22: an output that has one of the two names of a script and cannot be
    opened for writing stops the script with the OSError of [open], when
    the outputs before it did not stop it: the files are left as the
    outputs before it left them, and the outputs after it are not
    reached. *)
Theorem scripts_stop_at_closed_output pre out post b fs :
  can_open out = false →
  (endswith out "oxr_generated_bindings.c" = true
   ∨ endswith out "oxr_generated_bindings.h" = true →
   snd (main pre b fs) = None →
   main (pre ++ out :: post) b fs = (fst (main pre b fs), Some OSError))
  ∧ (endswith out "ovrd_generated_bindings.c" = true
     ∨ endswith out "ovrd_generated_bindings.h" = true →
     snd (ovrd_main pre b fs) = None →
     ovrd_main (pre ++ out :: post) b fs = (fst (ovrd_main pre b fs), Some OSError)).
Proof.
  intros Hopen. split; intros Hout Hok.
  - by apply (dispatch_closed "oxr_generated_bindings.c" "oxr_generated_bindings.h" _ _ _ _
             (λ output, generate_bindings_c_file output b)
             (λ output, generate_bindings_h output b)
             (λ file, generate_bindings_c_file_eq file b)
             (λ file, generate_bindings_h_eq file b)).
  - by apply (dispatch_closed "ovrd_generated_bindings.c" "ovrd_generated_bindings.h" _ _ _ _
             (λ output, ovrd_generate_bindings_c_file output b)
             (λ output, ovrd_generate_bindings_h output b)
             (λ file, ovrd_generate_bindings_c_file_eq file b)
             (λ file, ovrd_generate_bindings_h_eq file b)).
Qed.
End oxr_bindings.

(** ** The theorems at sample bindings *)









(** C3, as stated, fails: the dictionary of dpad emulators of the profile is
    empty, and the body of its matcher holds no block for the profile. *)
Lemma C3_counterexample :
  get_verify_func_body sample_version_is_valid nat le sample_as_tuple sample_intersection
    sample_pico DDpadEmulators (availability sample_pico) = [].
Proof. reflexivity. Qed.



(** C7, as stated, fails: the component names an activate component the
    profile does not have, and generation succeeds: the component has no
    binding, so nothing is looked up and its record gets no dpad_activate. *)
Lemma C7_counterexample :
  dpad_emulation sample_unbound = Some {[ "activate" := "force" ]}
  ∧ find_component_in_list_by_name "force" (components sample_pico_unbound)
      (subaction_path sample_unbound) (identifier_json_path sample_unbound) = None
  ∧ snd (oxr_component sample_pico_unbound 1 sample_unbound EmptyString) = Ok tt
  ∧ snd (ovrd_component sample_pico_unbound 1 sample_unbound EmptyString) = Ok tt
  ∧ snd (generate_bindings_c sample_version_is_valid nat le sample_as_tuple
           sample_intersection sample_header_format
           (mkBindings [sample_pico_unbound])) = Ok tt
  ∧ snd (ovrd_generate_bindings_c sample_header_format
           (mkBindings [sample_pico_unbound])) = Ok tt.
Proof. repeat split; vm_compute; reflexivity. Qed.

Lemma C7_witness :
  truthy (monado_binding sample_position) = true
  ∧ dpad_emulation sample_position = Some {[ "activate" := "click" ]}
  ∧ ({[ "activate" := "click" ]} : gmap string string) !! "activate" = Some "click"
  ∧ snd (oxr_component sample_pico_dangling 1 sample_dangling EmptyString)
    = Raise AttributeError.
Proof.
  repeat (split; [reflexivity|]).
  refine (proj1 (proj1
    (C7_activate_resolution sample_pico_dangling 1 sample_dangling
       EmptyString {[ "activate" := "force" ]} "force" eq_refl eq_refl eq_refl) _)).
  intros c Hc (Hname & _).
  apply elem_of_cons in Hc as [->|Hc]; [discriminate|].
  apply elem_of_cons in Hc as [->|Hc]; [discriminate|].
  by apply elem_of_nil in Hc.
Defined.

Lemma C8_witness :
  Total (le : relation nat) ∧ Transitive (le : relation nat)
  ∧ get_verify_func_switch sample_version_is_valid nat le sample_as_tuple
      {[ 3 := ["abc"] ]} "/interaction_profiles/bytedance/pico_neo3_controller"
      (mkAvailability [sample_fs_ext; sample_fs_version])
    = get_verify_func_switch sample_version_is_valid nat le sample_as_tuple
      {[ 3 := ["abc"] ]} "/interaction_profiles/bytedance/pico_neo3_controller"
      (mkAvailability [sample_fs_version; sample_fs_ext]).
Proof.
  split; [apply _|]. split; [apply _|].
  refine (proj1 (proj2 (proj2 (proj2 (proj2
    (C8_order_independent sample_version_is_valid nat le sample_as_tuple
       sample_intersection))))) _ _ _ _ _ _).
  - intros x y Hx Hy. simpl in Hx, Hy.
    apply elem_of_cons in Hx as [->|Hx]; apply elem_of_cons in Hy as [->|Hy];
      try (apply list_elem_of_singleton in Hx as ->);
      try (apply list_elem_of_singleton in Hy as ->);
      unfold as_tuple_le, sample_as_tuple; simpl; intros; try reflexivity; lia.
  - simpl. apply Permutation_swap.
Defined.

(** C9, as stated, fails: the second profile names an activate component it
    does not have, the run stops on the exception, and the output file is
    left holding what was written until then. *)
Lemma C9_counterexample :
  snd (generate_bindings_c sample_version_is_valid nat le sample_as_tuple
         sample_intersection sample_header_format sample_bindings_dangling)
  = Raise AttributeError
  ∧ fst (generate_bindings_c sample_version_is_valid nat le sample_as_tuple
           sample_intersection sample_header_format sample_bindings_dangling)
    ≠ EmptyString
  ∧ String.prefix "// Generated bindings data"
      (fst (generate_bindings_c sample_version_is_valid nat le sample_as_tuple
              sample_intersection sample_header_format sample_bindings_dangling))
    = true.
Proof.
  split; [vm_compute; reflexivity|]. split; [|vm_compute; reflexivity].
  intros H. vm_compute in H. discriminate.
Qed.

Lemma C9_witness :
  profiles sample_bindings_dangling = [sample_pico] ++ sample_pico_dangling :: []
  ∧ snd ((oxr_preamble sample_version_is_valid nat le sample_as_tuple
            sample_intersection sample_header_format sample_bindings_dangling;;
          for_each [sample_pico] oxr_profile) EmptyString) = Ok tt
  ∧ snd (generate_bindings_c sample_version_is_valid nat le sample_as_tuple
           sample_intersection sample_header_format sample_bindings_dangling)
    = Raise AttributeError.
Proof.
  split; [reflexivity|]. split; [vm_compute; reflexivity|].
  set (pre := (oxr_preamble sample_version_is_valid nat le sample_as_tuple
                 sample_intersection sample_header_format sample_bindings_dangling;;
               for_each [sample_pico] oxr_profile) EmptyString).
  assert (Hpre : pre = (fst pre, Ok tt)) by (vm_compute; reflexivity).
  assert (Hp : oxr_profile sample_pico_dangling (fst pre)
               = (fst (oxr_profile sample_pico_dangling (fst pre)), Raise AttributeError))
    by (vm_compute; reflexivity).
  rewrite (proj1 (C9_error_leaves_partial_file sample_version_is_valid nat le
                    sample_as_tuple sample_intersection sample_header_format
                    sample_bindings_dangling [sample_pico] sample_pico_dangling []
                    AttributeError _ _ eq_refl Hpre Hp)).
  reflexivity.
Defined.

(** ** Examples for the further statements *)

Lemma full_success_implies_reduced_success_witness :
  snd (generate_bindings_c sample_version_is_valid nat le sample_as_tuple
         sample_intersection sample_header_format sample_bindings) = Ok tt
  ∧ snd (ovrd_generate_bindings_c sample_header_format sample_bindings) = Ok tt.
Proof.
  assert (H : snd (generate_bindings_c sample_version_is_valid nat le sample_as_tuple
                     sample_intersection sample_header_format sample_bindings) = Ok tt)
    by (vm_compute; reflexivity).
  split; [exact H|].
  exact (full_success_implies_reduced_success sample_version_is_valid nat le
           sample_as_tuple sample_intersection sample_header_format sample_bindings H).
Defined.

Lemma profile_head_names_witness :
  name sample_pico = "/interaction_profiles" +:+ "/" +:+ "bytedance" +:+ "/"
                     +:+ "pico_neo3_controller"
  ∧ contains_slash "bytedance" = false
  ∧ contains_slash "pico_neo3_controller" = false
  ∧ ovrd_profile_head sample_pico EmptyString = oxr_profile_head sample_pico EmptyString.
Proof.
  repeat (split; [reflexivity|]).
  exact (proj2 (profile_head_names sample_pico "/interaction_profiles" "bytedance"
                  "pico_neo3_controller" EmptyString eq_refl eq_refl eq_refl)).
Defined.

Lemma profile_without_slash_raises_witness :
  contains_slash (name sample_nameless) = false
  ∧ oxr_profile sample_nameless "text" = ("text", Raise IndexError)
  ∧ ovrd_profile sample_nameless "text" = ("text", Raise IndexError).
Proof.
  split; [reflexivity|].
  exact (profile_without_slash_raises sample_nameless "text" eq_refl).
Defined.




Lemma version_guard_lexicographic_witness :
  (0 ≤ 1 < 65536)%Z ∧ (0 ≤ 2 < 65536)%Z
  ∧ openxr_version sample_call_newer = XR_MAKE_VERSION 1 2 0
  ∧ version_holds sample_call_newer (mkVersion 1 1) = true.
Proof.
  assert (Ha : (0 ≤ 1 < 65536)%Z) by lia.
  assert (Hb : (0 ≤ 2 < 65536)%Z) by lia.
  repeat (split; [done|]).
  apply (proj2 (version_guard_lexicographic (mkVersion 1 1) sample_call_newer 1 2 0
                  Ha Hb eq_refl)).
  right. split; [reflexivity|]. vm_compute. discriminate.
Defined.

Lemma main_files_on_success_witness :
  snd (main sample_version_is_valid nat le sample_as_tuple sample_intersection
         sample_header_format sample_can_open sample_outputs sample_bindings ∅) = None
  ∧ fst (main sample_version_is_valid nat le sample_as_tuple sample_intersection
           sample_header_format sample_can_open sample_outputs sample_bindings ∅)
      !! "gen/oxr_generated_bindings.c"
    = Some (fst (generate_bindings_c sample_version_is_valid nat le sample_as_tuple
                   sample_intersection sample_header_format sample_bindings)).
Proof.
  assert (H : snd (main sample_version_is_valid nat le sample_as_tuple
                     sample_intersection sample_header_format sample_can_open sample_outputs
                     sample_bindings ∅) = None)
    by (vm_compute; reflexivity).
  split; [exact H|].
  exact (main_files_on_success sample_version_is_valid nat le sample_as_tuple
           sample_intersection sample_header_format sample_can_open sample_outputs sample_bindings ∅
           "gen/oxr_generated_bindings.c" H).
Defined.

Lemma main_stops_at_failure_witness :
  generate_bindings_c sample_version_is_valid nat le sample_as_tuple sample_intersection
    sample_header_format sample_bindings_dangling
  = (fst (generate_bindings_c sample_version_is_valid nat le sample_as_tuple
            sample_intersection sample_header_format sample_bindings_dangling),
     Raise AttributeError)
  ∧ endswith "gen/oxr_generated_bindings.c" "oxr_generated_bindings.c" = true
  ∧ snd (main sample_version_is_valid nat le sample_as_tuple sample_intersection
           sample_header_format sample_can_open
           (["gen/oxr_generated_bindings.h"] ++ "gen/oxr_generated_bindings.c"
              :: ["late/oxr_generated_bindings.h"])
           sample_bindings_dangling ∅) = Some (Generator AttributeError)
  ∧ fst (main sample_version_is_valid nat le sample_as_tuple sample_intersection
           sample_header_format sample_can_open
           (["gen/oxr_generated_bindings.h"] ++ "gen/oxr_generated_bindings.c"
              :: ["late/oxr_generated_bindings.h"])
           sample_bindings_dangling ∅) !! "late/oxr_generated_bindings.h" = None.
Proof.
  assert (Hgen : generate_bindings_c sample_version_is_valid nat le sample_as_tuple
                   sample_intersection sample_header_format sample_bindings_dangling
                 = (fst (generate_bindings_c sample_version_is_valid nat le
                           sample_as_tuple sample_intersection sample_header_format
                           sample_bindings_dangling),
                    Raise AttributeError)).
  { apply injective_projections; [reflexivity|vm_compute; reflexivity]. }
  assert (Hpre : ∀ output, output ∈ ["gen/oxr_generated_bindings.h"] →
                   endswith output "oxr_generated_bindings.c" = false).
  { intros output ->%list_elem_of_singleton. reflexivity. }
  assert (Hopens : ∀ output, output ∈ ["gen/oxr_generated_bindings.h"] →
                     endswith output "oxr_generated_bindings.h" = true →
                     sample_can_open output = true).
  { intros output ->%list_elem_of_singleton _. reflexivity. }
  split; [exact Hgen|]. split; [reflexivity|].
  exact (main_stops_at_failure sample_version_is_valid nat le sample_as_tuple
           sample_intersection sample_header_format sample_can_open
           ["gen/oxr_generated_bindings.h"] "gen/oxr_generated_bindings.c"
           ["late/oxr_generated_bindings.h"] sample_bindings_dangling ∅ _
           AttributeError "late/oxr_generated_bindings.h" Hgen Hpre Hopens
           eq_refl eq_refl).
Defined.

Lemma ovrd_main_files_on_success_witness :
  snd (ovrd_main sample_header_format sample_can_open sample_ovrd_outputs sample_bindings ∅) = None
  ∧ fst (ovrd_main sample_header_format sample_can_open sample_ovrd_outputs sample_bindings ∅)
      !! "gen/ovrd_generated_bindings.h"
    = Some (ovrd_header_text sample_header_format sample_bindings).
Proof.
  assert (H : snd (ovrd_main sample_header_format sample_can_open sample_ovrd_outputs
                     sample_bindings ∅) = None)
    by (vm_compute; reflexivity).
  split; [exact H|].
  exact (ovrd_main_files_on_success sample_header_format sample_can_open sample_ovrd_outputs
           sample_bindings ∅ "gen/ovrd_generated_bindings.h" H).
Defined.

Lemma ovrd_main_stops_at_failure_witness :
  ovrd_generate_bindings_c sample_header_format sample_bindings_dangling
  = (fst (ovrd_generate_bindings_c sample_header_format sample_bindings_dangling),
     Raise AttributeError)
  ∧ endswith "gen/ovrd_generated_bindings.c" "ovrd_generated_bindings.c" = true
  ∧ snd (ovrd_main sample_header_format sample_can_open
           ([] ++ "gen/ovrd_generated_bindings.c" :: ["gen/ovrd_generated_bindings.h"])
           sample_bindings_dangling ∅) = Some (Generator AttributeError)
  ∧ fst (ovrd_main sample_header_format sample_can_open
           ([] ++ "gen/ovrd_generated_bindings.c" :: ["gen/ovrd_generated_bindings.h"])
           sample_bindings_dangling ∅) !! "gen/ovrd_generated_bindings.h" = None.
Proof.
  assert (Hgen : ovrd_generate_bindings_c sample_header_format sample_bindings_dangling
                 = (fst (ovrd_generate_bindings_c sample_header_format
                           sample_bindings_dangling),
                    Raise AttributeError)).
  { apply injective_projections; [reflexivity|vm_compute; reflexivity]. }
  assert (Hpre : ∀ output, output ∈ ([] : list string) →
                   endswith output "ovrd_generated_bindings.c" = false).
  { intros output Hin. by apply elem_of_nil in Hin. }
  assert (Hopens : ∀ output, output ∈ ([] : list string) →
                     endswith output "ovrd_generated_bindings.h" = true →
                     sample_can_open output = true).
  { intros output Hin. by apply elem_of_nil in Hin. }
  split; [exact Hgen|]. split; [reflexivity|].
  exact (ovrd_main_stops_at_failure sample_header_format sample_can_open
           [] "gen/ovrd_generated_bindings.c" ["gen/ovrd_generated_bindings.h"]
           sample_bindings_dangling ∅ _ AttributeError "gen/ovrd_generated_bindings.h"
           Hgen Hpre Hopens eq_refl eq_refl).
Defined.

Lemma scripts_write_only_their_outputs_witness :
  fst (main sample_version_is_valid nat le sample_as_tuple sample_intersection
         sample_header_format sample_can_open sample_outputs sample_bindings ∅) !! "notes.txt" = None
  ∧ fst (ovrd_main sample_header_format sample_can_open sample_outputs sample_bindings ∅)
      !! "gen/oxr_generated_bindings.c" = None.
Proof.
  split.
  - exact (proj1 (scripts_write_only_their_outputs sample_version_is_valid nat le
                    sample_as_tuple sample_intersection sample_header_format sample_can_open
                    sample_outputs sample_bindings ∅ "notes.txt")
             (or_intror (conj eq_refl eq_refl))).
  - exact (proj2 (scripts_write_only_their_outputs sample_version_is_valid nat le
                    sample_as_tuple sample_intersection sample_header_format sample_can_open
                    sample_outputs sample_bindings ∅ "gen/oxr_generated_bindings.c")
             (or_intror (conj eq_refl eq_refl))).
Defined.

Lemma outputs_recognised_once_witness :
  endswith "gen/ovrd_generated_bindings.c" "ovrd_generated_bindings.c" = true
  ∧ endswith "gen/ovrd_generated_bindings.c" "oxr_generated_bindings.c" = false.
Proof.
  split; [reflexivity|].
  refine (outputs_recognised_once "gen/ovrd_generated_bindings.c"
            "ovrd_generated_bindings.c" "oxr_generated_bindings.c" _ _ _ eq_refl).
  - right; right; left.
  - left.
  - discriminate.
Defined.

Lemma headers_depend_on_names_only_witness :
  List.map validation_func_name (profiles sample_bindings)
  = List.map validation_func_name (profiles sample_bindings_twice)
  ∧ generate_bindings_h sample_header_format sample_can_open "gen/oxr_generated_bindings.h"
      sample_bindings ∅
    = generate_bindings_h sample_header_format sample_can_open "gen/oxr_generated_bindings.h"
        sample_bindings_twice ∅
  ∧ ovrd_generate_bindings_h sample_header_format sample_can_open "gen/ovrd_generated_bindings.h"
      sample_bindings ∅
    = ovrd_generate_bindings_h sample_header_format sample_can_open "gen/ovrd_generated_bindings.h"
        sample_bindings_twice ∅.
Proof.
  split; [reflexivity|]. split.
  - exact (proj1 (headers_depend_on_names_only sample_header_format sample_can_open
                    "gen/oxr_generated_bindings.h" sample_bindings sample_bindings_twice ∅)
             eq_refl).
  - exact (proj2 (headers_depend_on_names_only sample_header_format sample_can_open
                    "gen/ovrd_generated_bindings.h" sample_bindings sample_bindings_twice ∅)
             eq_refl).
Defined.

Lemma scripts_outputs_as_a_set_witness :
  (∀ output, output ∈ sample_outputs
             ↔ output ∈ "notes.txt" :: reverse sample_outputs ++ sample_outputs)
  ∧ snd (main sample_version_is_valid nat le sample_as_tuple sample_intersection
           sample_header_format sample_can_open sample_outputs sample_bindings ∅) = None
  ∧ main sample_version_is_valid nat le sample_as_tuple sample_intersection
      sample_header_format sample_can_open ("notes.txt" :: reverse sample_outputs ++ sample_outputs)
      sample_bindings ∅
    = main sample_version_is_valid nat le sample_as_tuple sample_intersection
        sample_header_format sample_can_open sample_outputs sample_bindings ∅.
Proof.
  assert (Hsame : ∀ output, output ∈ sample_outputs
                    ↔ output ∈ "notes.txt" :: reverse sample_outputs ++ sample_outputs).
  { intros output. unfold sample_outputs. cbn [reverse rev_append app].
    rewrite !elem_of_cons, elem_of_nil. tauto. }
  assert (H : snd (main sample_version_is_valid nat le sample_as_tuple
                     sample_intersection sample_header_format sample_can_open sample_outputs
                     sample_bindings ∅) = None)
    by (vm_compute; reflexivity).
  split; [exact Hsame|]. split; [exact H|].
  exact (proj1 (scripts_outputs_as_a_set sample_version_is_valid nat le sample_as_tuple
                  sample_intersection sample_header_format sample_can_open sample_outputs
                  ("notes.txt" :: reverse sample_outputs ++ sample_outputs)
                  sample_bindings ∅ Hsame) H).
Defined.

Lemma scripts_stop_at_closed_output_witness :
  sample_can_open "nodir/oxr_generated_bindings.h" = false
  ∧ snd (main sample_version_is_valid nat le sample_as_tuple sample_intersection
           sample_header_format sample_can_open ["gen/oxr_generated_bindings.c"]
           sample_bindings ∅) = None
  ∧ main sample_version_is_valid nat le sample_as_tuple sample_intersection
      sample_header_format sample_can_open
      (["gen/oxr_generated_bindings.c"] ++ "nodir/oxr_generated_bindings.h"
         :: ["late/oxr_generated_bindings.h"])
      sample_bindings ∅
    = (fst (main sample_version_is_valid nat le sample_as_tuple sample_intersection
              sample_header_format sample_can_open ["gen/oxr_generated_bindings.c"]
              sample_bindings ∅),
       Some OSError).
Proof.
  assert (H : snd (main sample_version_is_valid nat le sample_as_tuple
                     sample_intersection sample_header_format sample_can_open
                     ["gen/oxr_generated_bindings.c"] sample_bindings ∅) = None)
    by (vm_compute; reflexivity).
  split; [reflexivity|]. split; [exact H|].
  exact (proj1 (scripts_stop_at_closed_output sample_version_is_valid nat le
                  sample_as_tuple sample_intersection sample_header_format
                  sample_can_open ["gen/oxr_generated_bindings.c"]
                  "nodir/oxr_generated_bindings.h" ["late/oxr_generated_bindings.h"]
                  sample_bindings ∅ eq_refl)
           (or_intror eq_refl) H).
Defined.
